(** * STOMP over WebSocket client: frame codec, dispatch and facade

    A shallow embedding of [stomp_ws/stomp.py] (classes [Stomp] and
    [Dispatcher]) together with the properties of its frame codec, its
    inbound dispatch and its connection handling.

    Python values are modelled as follows.
    - [str] is a sequence of Unicode code points, so [len] is [length].
    - [dict] is an insertion-ordered association list with unique keys.
    - A statement that can raise returns a [result].
    - The client object, the transport and the console are one record
      threaded through every method. *)

From Stdlib Require Import List NArith Arith Bool Lia String Ascii.
Import ListNotations.

Set Implicit Arguments.
Local Open Scope list_scope.

(* ================================================================== *)
(** ** Python strings *)

Module Py.

(** A code point. *)
Definition char := N.

(** A Python [str]. *)
Definition str := list char.

(** ASCII literals of the source text, as code points. *)
Definition lit (s : string) : str :=
  List.map N_of_ascii (list_ascii_of_string s).

Definition char_eqb (a b : char) : bool := N.eqb a b.

Fixpoint str_eqb (a b : str) : bool :=
  match a, b with
  | [], [] => true
  | x :: a', y :: b' => char_eqb x y && str_eqb a' b'
  | _, _ => false
  end.

(** [s == ''] *)
Definition is_empty (s : str) : bool :=
  match s with [] => true | _ :: _ => false end.

(** [str.isspace] on one code point: the code points CPython's
    [_PyUnicode_IsWhitespace] accepts. *)
Definition isspace (c : char) : bool :=
  ((9 <=? c) && (c <=? 13) || (28 <=? c) && (c <=? 32)
   || (c =? 133) || (c =? 160) || (c =? 5760)
   || (8192 <=? c) && (c <=? 8202)
   || (c =? 8232) || (c =? 8233) || (c =? 8239) || (c =? 8287)
   || (c =? 12288))%N.

Fixpoint lstrip (s : str) : str :=
  match s with
  | [] => []
  | c :: s' => if isspace c then lstrip s' else s
  end.

Definition rstrip (s : str) : str := rev (lstrip (rev s)).

(** [s.strip()] *)
Definition strip (s : str) : str := rstrip (lstrip s).

(** [s.split(sep)] for a one-character separator: never an empty list. *)
Fixpoint split (sep : char) (s : str) : list str :=
  match s with
  | [] => [[]]
  | c :: s' =>
      if char_eqb c sep then [] :: split sep s'
      else match split sep s' with
           | [] => [[c]]
           | l :: ls => (c :: l) :: ls
           end
  end.

(** [s.split(sep, 1)]: cut at the first separator only. *)
Fixpoint split1 (sep : char) (s : str) : list str :=
  match s with
  | [] => [[]]
  | c :: s' =>
      if char_eqb c sep then [[]; s']
      else match split1 sep s' with
           | l :: ls => (c :: l) :: ls
           | [] => [[c]]
           end
  end.

(** [''.join(parts)] *)
Definition join (parts : list str) : str := List.concat parts.

(** Decimal digits of [str(n)] for a non-negative integer. *)
Fixpoint digits (u : Decimal.uint) : str :=
  match u with
  | Decimal.Nil => []
  | Decimal.D0 u => 48%N :: digits u
  | Decimal.D1 u => 49%N :: digits u
  | Decimal.D2 u => 50%N :: digits u
  | Decimal.D3 u => 51%N :: digits u
  | Decimal.D4 u => 52%N :: digits u
  | Decimal.D5 u => 53%N :: digits u
  | Decimal.D6 u => 54%N :: digits u
  | Decimal.D7 u => 55%N :: digits u
  | Decimal.D8 u => 56%N :: digits u
  | Decimal.D9 u => 57%N :: digits u
  end.

(** [str(n)] *)
Definition str_of_nat (n : nat) : str := digits (Nat.to_uint n).

(** [str(n)] for an integer held in binary. *)
Definition str_of_N (n : N) : str := digits (N.to_uint n).

(** Number of octets of one code point in UTF-8. *)
Definition utf8_width (c : char) : nat :=
  if (c <? 128)%N then 1
  else if (c <? 2048)%N then 2
  else if (c <? 65536)%N then 3
  else 4.

(** [len(s.encode('utf-8'))] *)
Definition utf8_len (s : str) : nat :=
  list_sum (List.map utf8_width s).

(** *** Exceptions and results *)

(** The exception classes the code can meet.  [Exception cls] stands for
    any class that is not [KeyError] nor one of its subclasses. *)
Inductive exception : Type :=
| KeyError
| IndexError
| Exception (cls : string).

(** Does [except KeyError] catch it? *)
Definition is_KeyError (e : exception) : bool :=
  match e with KeyError => true | _ => false end.

(** The outcome of running a statement: a value, a raised exception, or a
    loop that used up its iteration budget. *)
Inductive result (A : Type) : Type :=
| Ok (a : A)
| Raise (e : exception)
| OutOfFuel.

Arguments Raise {A} e.
Arguments OutOfFuel {A}.

Definition bind {A B} (r : result A) (k : A -> result B) : result B :=
  match r with
  | Ok a => k a
  | Raise e => Raise e
  | OutOfFuel => OutOfFuel
  end.

(** [xs[i]] *)
Definition index {A} (xs : list A) (i : nat) : result A :=
  match nth_error xs i with
  | Some x => Ok x
  | None => Raise IndexError
  end.

(** *** Insertion-ordered dictionaries with [str] keys *)

Definition dict (V : Type) := list (str * V).

(** [d.get(k)] *)
Fixpoint dict_get {V} (d : dict V) (k : str) : option V :=
  match d with
  | [] => None
  | (k', v) :: d' => if str_eqb k' k then Some v else dict_get d' k
  end.

(** [d.get(k, default)] *)
Definition dict_get_default {V} (d : dict V) (k : str) (default : V) : V :=
  match dict_get d k with Some v => v | None => default end.

(** [d[k]] *)
Definition dict_item {V} (d : dict V) (k : str) : result V :=
  match dict_get d k with Some v => Ok v | None => Raise KeyError end.

(** [d[k] = v]: an existing key keeps its place, a new key goes last. *)
Fixpoint dict_set {V} (d : dict V) (k : str) (v : V) : dict V :=
  match d with
  | [] => [(k, v)]
  | (k', v') :: d' =>
      if str_eqb k' k then (k', v) :: d' else (k', v') :: dict_set d' k v
  end.

End Py.

Import Py.

Notation "x <- r ;; k" := (bind r (fun x => k))
  (at level 61, r at next level, right associativity).

(* ================================================================== *)
(** ** The client object and its environment *)

(** A subscription callback: a Python callable seen from the dispatcher.
    Calling it on a body either returns or raises; what else it does is
    its own business and is not followed here. *)
Record callback : Type := {
  cb_name : nat;
  cb_run : option str -> result unit
}.

(** The [Stomp] object with its [Dispatcher], the transport below it and
    the console.
    - [connected] is [None] until the attribute is first assigned.
    - [link_down] is [Some e] when [ws.send] raises the connection-closed
      exception whose text is [e], and [None] when the link accepts writes.
    - [sent] lists the texts accepted by [ws.send], oldest first.
    - [console] lists the printed lines, oldest first.
    - [invoked] lists the callback calls made so far, oldest first. *)
Record client : Type := {
  url : str;
  username : option str;
  password : option str;
  connected : option bool;
  callback_registry : dict callback;
  link_down : option str;
  sent : list str;
  console : list str;
  invoked : list (callback * option str)
}.

Definition set_connected (b : option bool) (st : client) : client :=
  {| url := url st; username := username st; password := password st;
     connected := b; callback_registry := callback_registry st;
     link_down := link_down st; sent := sent st; console := console st;
     invoked := invoked st |}.

Definition set_callback_registry (r : dict callback) (st : client) : client :=
  {| url := url st; username := username st; password := password st;
     connected := connected st; callback_registry := r;
     link_down := link_down st; sent := sent st; console := console st;
     invoked := invoked st |}.

Definition set_sent (l : list str) (st : client) : client :=
  {| url := url st; username := username st; password := password st;
     connected := connected st; callback_registry := callback_registry st;
     link_down := link_down st; sent := l; console := console st;
     invoked := invoked st |}.

Definition set_console (l : list str) (st : client) : client :=
  {| url := url st; username := username st; password := password st;
     connected := connected st; callback_registry := callback_registry st;
     link_down := link_down st; sent := sent st; console := l;
     invoked := invoked st |}.

Definition set_invoked (l : list (callback * option str)) (st : client)
  : client :=
  {| url := url st; username := username st; password := password st;
     connected := connected st; callback_registry := callback_registry st;
     link_down := link_down st; sent := sent st; console := console st;
     invoked := l |}.

(** [print(line)] *)
Definition print (line : str) (st : client) : client :=
  set_console (console st ++ [line]) st.

(** [self.ws.send(text)] inside its [try]: the text goes out, or the
    connection-closed exception is handed to the [except] clause. *)
Definition ws_send (text : str) (st : client) : option str * client :=
  match link_down st with
  | None => (None, set_sent (sent st ++ [text]) st)
  | Some e => (Some e, st)
  end.

(** Truth value of an optional string, as [if body:] takes it. *)
Definition truthy (body : option str) : bool :=
  match body with
  | Some (_ :: _) => true
  | _ => false
  end.

(** What an f-string shows for an optional string. *)
Definition show (body : option str) : str :=
  match body with Some b => b | None => lit "None" end.

Definition BYTE_LF : str := [10%N].
Definition BYTE_NULL : str := [0%N].
Definition COLON : char := 58%N.
Definition LF : char := 10%N.
Definition VERSIONS : str := lit "1.0,1.1".

(* ================================================================== *)
(** ** class Dispatcher *)

Module Dispatcher.

(** The frame text built by [_transmit] before it is handed to the
    transport: the [lines] list of the source, joined. *)
Definition frame_text (command : str) (headers : dict str) (msg : option str)
  : str :=
  let lines := [command ++ BYTE_LF] in
  let lines :=
    lines ++ List.map (fun kv => fst kv ++ [COLON] ++ snd kv ++ BYTE_LF) headers in
  let lines := lines ++ [BYTE_LF] in
  let lines := match msg with
               | Some m => lines ++ [m]
               | None => lines
               end in
  let lines := lines ++ [BYTE_NULL] in
  join lines.

(** [_transmit(command, headers, msg)] *)
Definition _transmit (command : str) (headers : dict str) (msg : option str)
  (st : client) : client :=
  let frame := frame_text command headers msg in
  let st := print (lit ">>>" ++ frame) st in
  match ws_send frame st with
  | (None, st) => st
  | (Some e, st) =>
      let st := print (lit "Error sending message: " ++ e) st in
      print (lit "Connection to remote host was lost.") st
  end.

(** The header loop of [_parse_message]:
    [while i < len(lines) and lines[i] != '': ...; i += 1]. *)
Fixpoint header_loop (fuel : nat) (lines : list str) (i : nat)
  (headers : dict str) : result (nat * dict str) :=
  match fuel with
  | O => OutOfFuel
  | S fuel' =>
      if i <? List.length lines then
        line <- index lines i ;;
        if is_empty line then Ok (i, headers)
        else
          let header_parts := split1 COLON line in
          headers' <-
            (if List.length header_parts =? 2 then
               key <- index header_parts 0 ;;
               value <- index header_parts 1 ;;
               Ok (dict_set headers key value)
             else Ok headers) ;;
          header_loop fuel' lines (i + 1) headers'
      else Ok (i, headers)
  end.

(** [_parse_message(frame)] on a text frame.  The loop is given as many
    iterations as there are lines. *)
Definition _parse_message (frame : str)
  : result (str * dict str * option str) :=
  let lines := split LF frame in
  line0 <- index lines 0 ;;
  let command := strip line0 in
  r <- header_loop (List.length lines) lines 1 [] ;;
  let i := fst r in
  let headers := snd r in
  body <-
    (if i + 1 <? List.length lines then
       next <- index lines (i + 1) ;;
       Ok (if str_eqb next BYTE_NULL then None else Some next)
     else Ok None) ;;
  Ok (command, headers, body).

(** The line printed by the [except KeyError] clause of [_on_message]. *)
Definition warning (headers : dict str) : str :=
  lit "Warning: No callback registered for destination "
  ++ dict_get_default headers (lit "destination") (lit "unknown").

(** The [try] body of the MESSAGE branch:
    [self.stomp.callback_registry[headers['destination']](body)]. *)
Definition call_registered (headers : dict str) (body : option str)
  (st : client) : result unit * client :=
  match dict_item headers (lit "destination") with
  | Ok destination =>
      match dict_item (callback_registry st) destination with
      | Ok cb =>
          let st := set_invoked (invoked st ++ [(cb, body)]) st in
          (cb_run cb body, st)
      | Raise e => (Raise e, st)
      | OutOfFuel => (OutOfFuel, st)
      end
  | Raise e => (Raise e, st)
  | OutOfFuel => (OutOfFuel, st)
  end.

(** [_on_message(ws, message)] on a text message. *)
Definition _on_message (message : str) (st : client) : result unit * client :=
  let st := print (lit "<<< " ++ message) st in
  match _parse_message message with
  | Ok (command, headers, body) =>
      let st :=
        if str_eqb command (lit "CONNECTED") then
          let st := set_connected (Some true) st in
          print (lit "Successfully connected to STOMP server") st
        else st in
      let st :=
        if str_eqb command (lit "ERROR") then
          let st :=
            print (lit "ERROR: "
                   ++ dict_get_default headers (lit "message")
                        (lit "Unknown error")) st in
          if truthy body then print (lit "Details: " ++ show body) st else st
        else st in
      if str_eqb command (lit "MESSAGE") then
        match call_registered headers body st with
        | (Raise e, st) =>
            if is_KeyError e then (Ok tt, print (warning headers) st)
            else (Raise e, st)
        | other => other
        end
      else (Ok tt, st)
  | Raise e => (Raise e, st)
  | OutOfFuel => (OutOfFuel, st)
  end.

(** [connect()] *)
Definition connect (st : client) : client :=
  let headers : dict str := [] in
  let headers := dict_set headers (lit "host") (url st) in
  let headers := dict_set headers (lit "accept-version") VERSIONS in
  let headers := dict_set headers (lit "heart-beat") (lit "10000,10000") in
  let headers :=
    match username st with
    | Some u => dict_set headers (lit "login") u
    | None => headers
    end in
  let headers :=
    match password st with
    | Some p => dict_set headers (lit "passcode") p
    | None => headers
    end in
  _transmit (lit "CONNECT") headers None st.

(** [subscribe(destination)].  [now] is [int(time.time())] and [uuid8] the
    first eight characters of [str(uuid.uuid4())] at the time of the call. *)
Definition subscribe (destination : str) (now : N) (uuid8 : str)
  (st : client) : client :=
  let headers : dict str := [] in
  let sub_id := lit "sub-" ++ str_of_N now ++ lit "-" ++ uuid8 in
  let headers := dict_set headers (lit "id") sub_id in
  let headers := dict_set headers (lit "ack") (lit "client") in
  let headers := dict_set headers (lit "destination") destination in
  _transmit (lit "SUBSCRIBE") headers None st.

(** The headers [send] builds. *)
Definition send_headers (destination message : str) : dict str :=
  let headers : dict str := [] in
  let headers := dict_set headers (lit "destination") destination in
  dict_set headers (lit "content-length") (str_of_nat (List.length message)).

(** [send(destination, message)] *)
Definition send (destination message : str) (st : client) : client :=
  _transmit (lit "SEND") (send_headers destination message) (Some message) st.

(** [disconnect()] *)
Definition disconnect (st : client) : client :=
  _transmit (lit "DISCONNECT") [] None st.

(** [heartbeat()] *)
Definition heartbeat (st : client) : client :=
  match ws_send BYTE_LF st with
  | (None, st) => st
  | (Some e, st) =>
      let st := print (lit "Error sending heartbeat: " ++ e) st in
      print (lit "Connection to remote host was lost.") st
  end.

End Dispatcher.

(* ================================================================== *)
(** ** class Stomp *)

Module Stomp.

(** [__init__(host, sockjs, wss, username, password)] once the transport
    has reported that it is open. *)
Definition __init__ (host : str) (sockjs wss : bool)
  (username password : option str) : client :=
  let ws_host := if sockjs then host ++ lit "/websocket" else host in
  let protocol := if wss then lit "wss://" else lit "ws://" in
  {| url := protocol ++ ws_host; username := username; password := password;
     connected := None; callback_registry := []; link_down := None;
     sent := []; console := []; invoked := [] |}.

(** The wait of [connect()]:
    [while self.connected is False: time.sleep(.50)] followed by
    [return self.connected], while the transport thread hands the texts of
    [inbound] to [_on_message] one after the other.  An exception escaping
    [_on_message] stays in the transport thread.  [OutOfFuel] says that
    [inbound] is used up and the caller still waits. *)
Fixpoint wait_connected (inbound : list str) (st : client)
  : result bool * client :=
  match connected st with
  | None => (Raise (Exception "AttributeError"), st)
  | Some true => (Ok true, st)
  | Some false =>
      match inbound with
      | [] => (OutOfFuel, st)
      | message :: inbound' =>
          wait_connected inbound' (snd (Dispatcher._on_message message st))
      end
  end.

(** [connect()], with the texts the transport delivers while it waits. *)
Definition connect (inbound : list str) (st : client) : result bool * client :=
  let st := set_connected (Some false) st in
  let st := Dispatcher.connect st in
  wait_connected inbound st.

(** [subscribe(destination, callback)] *)
Definition subscribe (destination : str) (cb : callback) (now : N)
  (uuid8 : str) (st : client) : client :=
  let st :=
    set_callback_registry (dict_set (callback_registry st) destination cb) st in
  Dispatcher.subscribe destination now uuid8 st.

(** [send(destination, message)] *)
Definition send (destination message : str) (st : client) : client :=
  Dispatcher.send destination message st.

(** [disconnect()] *)
Definition disconnect (st : client) : client :=
  match connected st with
  | Some true => set_connected (Some false) (Dispatcher.disconnect st)
  | _ => st
  end.

End Stomp.

(** The transport thread handing a run of inbound texts to [_on_message]. *)
Fixpoint deliver (inbound : list str) (st : client) : client :=
  match inbound with
  | [] => st
  | message :: inbound' =>
      deliver inbound' (snd (Dispatcher._on_message message st))
  end.

(* ================================================================== *)
(** ** Vocabulary of the statements *)

(** The keys of a dictionary, in order. *)
Definition keys {V} (d : dict V) : list str := List.map fst d.

(** A header as [_transmit] writes it, without its line feed. *)
Definition header_line (kv : str * str) : str :=
  fst kv ++ [COLON] ++ snd kv.

(** The text [_transmit] puts between the blank line and the NULL octet. *)
Definition body_text (msg : option str) : str :=
  match msg with Some m => m | None => [] end.

(** A header [_parse_message] reads back as written: no colon in the key,
    no line feed in either part. *)
Definition plain_header (kv : str * str) : Prop :=
  ~ In COLON (fst kv) /\ ~ In LF (fst kv) /\ ~ In LF (snd kv).

(** What [_parse_message] makes of the first line after the blank line. *)
Definition body_of_lines (after : list str) : option str :=
  match after with
  | [] => None
  | next :: _ => if str_eqb next BYTE_NULL then None else Some next
  end.

(** A text decoded as a MESSAGE frame for [destination]. *)
Definition message_for (destination : str) (message : str) : Prop :=
  exists headers body,
    Dispatcher._parse_message message = Ok (lit "MESSAGE", headers, body)
    /\ dict_get headers (lit "destination") = Some destination.

(** The headers of a SUBSCRIBE frame. *)
Definition subscribe_headers (destination : str) (now : N) (uuid8 : str)
  : dict str :=
  [(lit "id", lit "sub-" ++ str_of_N now ++ lit "-" ++ uuid8);
   (lit "ack", lit "client");
   (lit "destination", destination)].

(** What one header line does to the dictionary in [_parse_message]: a
    line cut in two at its first colon is stored, any other is skipped. *)
Definition absorb (headers : dict str) (line : str) : dict str :=
  match split1 COLON line with
  | [key; value] => dict_set headers key value
  | _ => headers
  end.

(** Storing one written header. *)
Definition store (headers : dict str) (kv : str * str) : dict str :=
  dict_set headers (fst kv) (snd kv).

(** A header line as it can reach the loop of [_parse_message]: not empty
    and without line feed. *)
Definition header_text (line : str) : Prop :=
  line <> [] /\ ~ In LF line.

(** The wire text made of a command line, header lines, the blank line and
    whatever follows it. *)
Definition wire_text (command : str) (lines : list str) (rest : str) : str :=
  List.concat (List.map (fun l => l ++ [LF]) (command :: lines ++ [[]]))
  ++ rest.

(** [':' in line] *)
Definition has_colon (line : str) : bool :=
  existsb (fun c => char_eqb c COLON) line.

(** A decoded triple that [_transmit] can write and [_parse_message] read
    back: the command is stripped and on one line, the keys are distinct,
    the headers are plain and the body, if any, is one line other than the
    NULL octet alone. *)
Definition decoded_shape (command : str) (headers : dict str)
  (body : option str) : Prop :=
  strip command = command
  /\ ~ In LF command
  /\ NoDup (keys headers)
  /\ Forall plain_header headers
  /\ (forall text, body = Some text -> ~ In LF text /\ text <> BYTE_NULL).

(** A text that ends with the NULL octet. *)
Definition terminated (text : str) : Prop :=
  exists before, text = before ++ BYTE_NULL.

(** A text decoded as a CONNECTED frame. *)
Definition CONNECTED_frame (message : str) : Prop :=
  exists headers body,
    Dispatcher._parse_message message = Ok (lit "CONNECTED", headers, body).

(** The headers of the CONNECT frame of a client. *)
Definition connect_headers (st : client) : dict str :=
  [(lit "host", url st);
   (lit "accept-version", VERSIONS);
   (lit "heart-beat", lit "10000,10000")]
  ++ match username st with
     | Some u => [(lit "login", u)]
     | None => []
     end
  ++ match password st with
     | Some p => [(lit "passcode", p)]
     | None => []
     end.

(** [send_heartbeat(client)] of the command-line front end: one tick of its
    heartbeat thread.  The client object always has its [dispatcher]. *)
Definition send_heartbeat (st : client) : client :=
  match connected st with
  | Some true => Dispatcher.heartbeat st
  | _ => st
  end.

(** [Dispatcher._on_close(ws, close_status_code, close_msg)] *)
Definition _on_close (st : client) : client :=
  print (lit "### closed ###") st.

(** [Dispatcher._on_error(ws, error)], with the text of the error. *)
Definition _on_error (error : str) (st : client) : client :=
  print error st.

(** One use of the client: a call of its interface by the application, a
    tick of the heartbeat thread, or a text or a notice handed in by the
    transport. *)
Inductive event : Type :=
| Connect (inbound : list str)
| Subscribe (destination : str) (cb : callback) (now : N) (uuid8 : str)
| Send (destination message : str)
| Disconnect
| Heartbeat
| Inbound (message : str)
| LinkLost (e : str)
| Closed
| Errored (error : str).

(** The link goes down: from now on [ws.send] raises. *)
Definition lose_link (e : str) (st : client) : client :=
  {| url := url st; username := username st; password := password st;
     connected := connected st; callback_registry := callback_registry st;
     link_down := Some e; sent := sent st; console := console st;
     invoked := invoked st |}.

Definition step (ev : event) (st : client) : client :=
  match ev with
  | Connect inbound => snd (Stomp.connect inbound st)
  | Subscribe destination cb now uuid8 =>
      Stomp.subscribe destination cb now uuid8 st
  | Send destination message => Stomp.send destination message st
  | Disconnect => Stomp.disconnect st
  | Heartbeat => send_heartbeat st
  | Inbound message => snd (Dispatcher._on_message message st)
  | LinkLost e => lose_link e st
  | Closed => _on_close st
  | Errored error => _on_error error st
  end.

(** A history of the client, oldest event first. *)
Fixpoint run (history : list event) (st : client) : client :=
  match history with
  | [] => st
  | ev :: history' => run history' (step ev st)
  end.

(** The commands the client writes. *)
Definition client_commands : list str :=
  [lit "CONNECT"; lit "SUBSCRIBE"; lit "SEND"; lit "DISCONNECT"].

(** A text the client may hand to the transport: the heartbeat line feed,
    or a frame of one of its four commands. *)
Definition outbound (text : str) : Prop :=
  text = BYTE_LF
  \/ exists command headers msg,
       In command client_commands
       /\ text = Dispatcher.frame_text command headers msg.

(** What holds of a client whatever was done with it. *)
Definition well_kept (st : client) : Prop :=
  Forall outbound (sent st) /\ NoDup (keys (callback_registry st)).

(* ================================================================== *)
(** ** Concrete frames and clients *)

(** A client straight out of its constructor: [connect()] not yet called. *)
Definition fresh_client : client :=
  Stomp.__init__ (lit "broker:61614") false true None None.

(** [MESSAGE\ndestination:/topic/x\n\nhello\0] *)
Definition hello_frame : str :=
  lit "MESSAGE" ++ BYTE_LF ++ lit "destination:/topic/x" ++ BYTE_LF
  ++ BYTE_LF ++ lit "hello" ++ BYTE_NULL.

(** [ERROR\nmessage:bad creds\n\n\0] *)
Definition error_frame : str :=
  lit "ERROR" ++ BYTE_LF ++ lit "message:bad creds" ++ BYTE_LF
  ++ BYTE_LF ++ BYTE_NULL.

(** A callback that returns. *)
Definition quiet (n : nat) : callback :=
  {| cb_name := n; cb_run := fun _ => Ok tt |}.

(** A callback that raises [e]. *)
Definition raising (n : nat) (e : exception) : callback :=
  {| cb_name := n; cb_run := fun _ => Raise e |}.

(* ================================================================== *)
(** ** Strings, splitting and dictionaries *)

Section StringFacts.

Lemma str_eqb_refl (s : str) : str_eqb s s = true.
Proof.
  induction s as [|c s IH]; simpl; [reflexivity|].
  unfold char_eqb. now rewrite N.eqb_refl, IH.
Qed.

Lemma str_eqb_eq (a b : str) : str_eqb a b = true <-> a = b.
Proof.
  split.
  - revert b. induction a as [|x a IH]; intros [|y b]; simpl; try easy.
    unfold char_eqb. intros H. apply andb_true_iff in H as [Hx Hab].
    apply N.eqb_eq in Hx. now rewrite Hx, (IH b Hab).
  - intros ->. apply str_eqb_refl.
Qed.

Lemma str_eqb_neq (a b : str) : str_eqb a b = false <-> a <> b.
Proof.
  rewrite <- str_eqb_eq. destruct (str_eqb a b); split; congruence.
Qed.

Lemma split_not_nil (sep : char) (s : str) : split sep s <> [].
Proof.
  destruct s as [|c s]; simpl; [discriminate|].
  destruct (char_eqb c sep); [discriminate|].
  destruct (split sep s); discriminate.
Qed.

Lemma split_without (sep : char) (s : str) :
  ~ In sep s -> split sep s = [s].
Proof.
  induction s as [|c s IH]; simpl; intros H; [reflexivity|].
  unfold char_eqb. destruct (N.eqb_spec c sep) as [->|_].
  - exfalso. apply H. now left.
  - rewrite IH; [reflexivity|]. intros Hin. apply H. now right.
Qed.

Lemma split_app (sep : char) (a b : str) :
  ~ In sep a -> split sep (a ++ sep :: b) = a :: split sep b.
Proof.
  induction a as [|c a IH]; simpl; intros H.
  - unfold char_eqb. now rewrite N.eqb_refl.
  - unfold char_eqb. destruct (N.eqb_spec c sep) as [->|_].
    + exfalso. apply H. now left.
    + rewrite IH; [reflexivity|]. intros Hin. apply H. now right.
Qed.

Lemma split1_app (sep : char) (a b : str) :
  ~ In sep a -> split1 sep (a ++ sep :: b) = [a; b].
Proof.
  induction a as [|c a IH]; simpl; intros H.
  - unfold char_eqb. now rewrite N.eqb_refl.
  - unfold char_eqb. destruct (N.eqb_spec c sep) as [->|_].
    + exfalso. apply H. now left.
    + rewrite IH; [reflexivity|]. intros Hin. apply H. now right.
Qed.

Lemma split1_length (sep : char) (s : str) :
  List.length (split1 sep s) = 1 \/ List.length (split1 sep s) = 2.
Proof.
  induction s as [|c s IH]; simpl; [now left|].
  destruct (char_eqb c sep); [now right|].
  destruct (split1 sep s) as [|l ls]; simpl in *; [now left|exact IH].
Qed.

(** Splitting a run of separator-terminated lines. *)
Lemma split_lines (sep : char) (ls : list str) (rest : str) :
  Forall (fun l => ~ In sep l) ls ->
  split sep (List.concat (List.map (fun l => l ++ [sep]) ls) ++ rest)
  = ls ++ split sep rest.
Proof.
  induction 1 as [|l ls Hl _ IH]; simpl; [reflexivity|].
  rewrite <- !app_assoc. simpl. rewrite split_app by exact Hl.
  now rewrite IH.
Qed.

Lemma index_in_range {A} (xs : list A) (i : nat) :
  i < List.length xs -> exists x, index xs i = Ok x.
Proof.
  intros H. unfold index.
  destruct (nth_error xs i) as [x|] eqn:E; [now exists x|].
  apply nth_error_None in E. lia.
Qed.

Lemma index_app_at {A} (pre : list A) (x : A) (post : list A) :
  index (pre ++ x :: post) (List.length pre) = Ok x.
Proof.
  unfold index. rewrite nth_error_app2 by lia.
  now rewrite Nat.sub_diag.
Qed.

Lemma dict_get_absent {V} (d : dict V) (k : str) :
  ~ In k (keys d) -> dict_get d k = None.
Proof.
  induction d as [|[k' v'] d IH]; simpl; intros H; [reflexivity|].
  destruct (str_eqb k' k) eqn:E.
  - apply str_eqb_eq in E. exfalso. apply H. now left.
  - apply IH. intros Hin. apply H. now right.
Qed.

Lemma dict_set_fresh {V} (d : dict V) (k : str) (v : V) :
  ~ In k (keys d) -> dict_set d k v = d ++ [(k, v)].
Proof.
  induction d as [|[k' v'] d IH]; simpl; intros H; [reflexivity|].
  destruct (str_eqb k' k) eqn:E.
  - apply str_eqb_eq in E. exfalso. apply H. now left.
  - rewrite IH; [reflexivity|]. intros Hin. apply H. now right.
Qed.

Lemma dict_get_set_same {V} (d : dict V) (k : str) (v : V) :
  dict_get (dict_set d k v) k = Some v.
Proof.
  induction d as [|[k' v'] d IH]; simpl.
  - now rewrite str_eqb_refl.
  - destruct (str_eqb k' k) eqn:E; simpl; rewrite E; [reflexivity|exact IH].
Qed.

(** Assigning the same key twice keeps only the second value. *)
Lemma dict_set_set {V} (d : dict V) (k : str) (v1 v2 : V) :
  dict_set (dict_set d k v1) k v2 = dict_set d k v2.
Proof.
  induction d as [|[k' v'] d IH]; simpl.
  - now rewrite str_eqb_refl.
  - destruct (str_eqb k' k) eqn:E; simpl; rewrite E; [reflexivity|].
    now rewrite IH.
Qed.

(** Filling an empty dictionary from distinct keys rebuilds the list. *)
Lemma dict_fill {V} (hs acc : dict V) :
  NoDup (keys (acc ++ hs)) ->
  fold_left (fun d kv => dict_set d (fst kv) (snd kv)) hs acc = acc ++ hs.
Proof.
  revert acc. induction hs as [|[k v] hs IH]; intros acc H; simpl.
  - now rewrite app_nil_r.
  - assert (Hk : ~ In k (keys acc)).
    { unfold keys in *. rewrite map_app in H. simpl in H.
      apply NoDup_remove_2 in H. intros Hin. apply H.
      apply in_or_app. now left. }
    rewrite dict_set_fresh by exact Hk.
    rewrite IH; rewrite <- app_assoc; [reflexivity|exact H].
Qed.

End StringFacts.

(* ================================================================== *)
(** ** The frame codec *)

Section Codec.

Import Dispatcher.

Lemma frame_text_as_lines (command : str) (headers : dict str)
  (msg : option str) :
  frame_text command headers msg
  = List.concat
      (List.map (fun l => l ++ [LF])
         (command :: List.map header_line headers ++ [[]]))
    ++ (body_text msg ++ BYTE_NULL).
Proof.
  unfold frame_text, join, BYTE_LF.
  assert (E : List.map (fun kv : list char * list char =>
                          fst kv ++ [COLON] ++ snd kv ++ [10%N]) headers
              = List.map (fun l => l ++ [LF]) (List.map header_line headers)).
  { rewrite map_map. apply map_ext. intros kv. unfold header_line.
    now rewrite <- !app_assoc. }
  rewrite E.
  destruct msg as [m|]; cbn [body_text List.map];
    unfold BYTE_NULL, LF;
    repeat (progress (rewrite ?map_app, ?concat_app, ?app_nil_r, <- ?app_assoc;
                      simpl));
    reflexivity.
Qed.

Lemma header_line_no_LF (kv : str * str) :
  plain_header kv -> ~ In LF (header_line kv).
Proof.
  intros (_ & Hk & Hv) Hin. unfold header_line in Hin.
  apply in_app_or in Hin as [Hin|Hin]; [now apply Hk|].
  simpl in Hin. destruct Hin as [Hin|Hin]; [discriminate|now apply Hv].
Qed.

(** The lines [_parse_message] sees for a frame written by [_transmit]. *)
Lemma split_frame_text (command : str) (headers : dict str)
  (msg : option str) :
  ~ In LF command ->
  Forall plain_header headers ->
  split LF (frame_text command headers msg)
  = command :: List.map header_line headers
    ++ [] :: split LF (body_text msg ++ BYTE_NULL).
Proof.
  intros Hc Hh. rewrite frame_text_as_lines, split_lines.
  - simpl. now rewrite <- app_assoc.
  - constructor; [exact Hc|]. apply Forall_app. split.
    + apply Forall_map. eapply Forall_impl; [|exact Hh].
      intros kv. apply header_line_no_LF.
    + constructor; [|constructor]. intros [].
Qed.

Lemma header_line_parts (kv : str * str) :
  plain_header kv -> split1 COLON (header_line kv) = [fst kv; snd kv].
Proof.
  intros (Hk & _). unfold header_line. simpl. now apply split1_app.
Qed.

(** The header loop never raises and never runs out of iterations when it
    is given one iteration per remaining line and one more. *)
Lemma header_loop_returns (fuel : nat) (lines : list str) (i : nat)
  (headers : dict str) :
  List.length lines - i < fuel ->
  exists j headers', header_loop fuel lines i headers = Ok (j, headers').
Proof.
  revert i headers.
  induction fuel as [|fuel IH]; intros i headers Hfuel; [lia|].
  simpl. destruct (Nat.ltb_spec i (List.length lines)) as [Hi|Hi].
  - destruct (index_in_range lines Hi) as [line ->]. simpl.
    destruct (is_empty line); [now eauto|].
    assert (Hnext : List.length lines - (i + 1) < fuel) by lia.
    destruct (split1_length COLON line) as [E|E]; rewrite E; simpl.
    + apply IH, Hnext.
    + destruct (split1 COLON line) as [|key [|value [|]]]; try discriminate.
      simpl. apply IH, Hnext.
  - now eauto.
Qed.

(** On the lines of a written frame the loop reads every header and stops
    on the blank line. *)
Lemma header_loop_reads (hs : dict str) :
  forall (fuel : nat) (pre : list str) (rest : list str) (acc : dict str),
  List.length hs < fuel ->
  Forall plain_header hs ->
  header_loop fuel (pre ++ List.map header_line hs ++ [] :: rest)
    (List.length pre) acc
  = Ok (List.length pre + List.length hs,
        fold_left (fun d kv => dict_set d (fst kv) (snd kv)) hs acc).
Proof.
  induction hs as [|kv hs IH]; intros fuel pre rest acc Hfuel Hplain.
  - destruct fuel as [|fuel]; [simpl in Hfuel; lia|]. simpl.
    rewrite length_app. simpl.
    destruct (Nat.ltb_spec (List.length pre)
                (List.length pre + S (List.length rest))); [|lia].
    rewrite index_app_at. simpl. now rewrite Nat.add_0_r.
  - destruct fuel as [|fuel]; [simpl in Hfuel; lia|].
    inversion Hplain as [|? ? Hkv Hrest]; subst.
    cbn [header_loop List.map app].
    rewrite length_app. cbn [List.length].
    destruct (Nat.ltb_spec (List.length pre)
                (List.length pre
                 + S (List.length (List.map header_line hs ++ [] :: rest))));
      [|lia].
    rewrite index_app_at. cbn [bind].
    assert (Hne : is_empty (header_line kv) = false).
    { unfold header_line. destruct (fst kv); reflexivity. }
    rewrite Hne, (header_line_parts Hkv). cbn.
    replace (pre ++ header_line kv :: List.map header_line hs ++ [] :: rest)
      with ((pre ++ [header_line kv]) ++ List.map header_line hs ++ [] :: rest)
      by (now rewrite <- app_assoc).
    replace (List.length pre + 1) with (List.length (pre ++ [header_line kv]))
      by (rewrite length_app; reflexivity).
    rewrite IH; [|simpl in Hfuel; lia|exact Hrest].
    rewrite length_app. simpl. f_equal. f_equal. lia.
Qed.

End Codec.

Section CodecProperties.

Import Dispatcher.

(** Decoding a written frame gives back the command and the headers; the
    body is read from the first line after the blank line. *)
Lemma parse_frame_text (command : str) (headers : dict str)
  (msg : option str) :
  ~ In LF command ->
  strip command = command ->
  NoDup (keys headers) ->
  Forall plain_header headers ->
  _parse_message (frame_text command headers msg)
  = Ok (command, headers,
        body_of_lines (split LF (body_text msg ++ BYTE_NULL))).
Proof.
  intros Hlf Hstrip Hkeys Hplain.
  unfold _parse_message.
  rewrite split_frame_text by assumption.
  set (after := split LF (body_text msg ++ BYTE_NULL)).
  assert (Hafter : after <> []) by apply split_not_nil.
  destruct after as [|next after]; [congruence|]. clear Hafter.
  cbn [index nth_error bind]. rewrite Hstrip.
  change (command :: List.map header_line headers ++ [] :: next :: after)
    with ([command] ++ List.map header_line headers ++ [] :: next :: after).
  rewrite header_loop_reads; [|rewrite !length_app, length_map; simpl; lia
                              |exact Hplain].
  rewrite (dict_fill headers []) by exact Hkeys.
  cbn [bind fst snd List.length app].
  rewrite !length_app, length_map. cbn [List.length].
  destruct (Nat.ltb_spec (1 + List.length headers + 1)
              (S (List.length headers + S (S (List.length after))))); [|lia].
  replace (command :: List.map header_line headers ++ [] :: next :: after)
    with ((command :: List.map header_line headers ++ [[]]) ++ next :: after)
    by (simpl; now rewrite <- app_assoc).
  replace (1 + List.length headers + 1)
    with (List.length (command :: List.map header_line headers ++ [[]]))
    by (simpl; rewrite length_app, length_map; simpl; lia).
  rewrite index_app_at. reflexivity.
Qed.

(** A written body that is one non-empty line comes back with the NULL
    octet still attached. *)
Lemma parse_frame_text_with_body (command : str) (headers : dict str)
  (c : char) (body : str) :
  ~ In LF command ->
  strip command = command ->
  NoDup (keys headers) ->
  Forall plain_header headers ->
  ~ In LF (c :: body) ->
  _parse_message (frame_text command headers (Some (c :: body)))
  = Ok (command, headers, Some ((c :: body) ++ BYTE_NULL)).
Proof.
  intros Hlf Hstrip Hkeys Hplain Hbody.
  rewrite parse_frame_text by assumption.
  cbn [body_text]. rewrite split_without.
  - cbn [body_of_lines]. simpl. destruct body; simpl;
      now rewrite ?andb_false_r.
  - intros Hin. apply in_app_or in Hin as [Hin|Hin]; [now apply Hbody|].
    simpl in Hin. destruct Hin as [Hin|[]]. discriminate.
Qed.

End CodecProperties.

(* ================================================================== *)
(** ** Properties of the frame codec *)

Section CodecClaims.

Import Dispatcher.

(** C9: [_parse_message] is total on text: for every input string it
    returns a (command, headers, body) triple, and neither an index nor an
    unpacking raises. *)
Theorem parse_message_total (frame : str) :
  exists command headers body,
    _parse_message frame = Ok (command, headers, body).
Proof.
  unfold _parse_message.
  pose proof (split_not_nil LF frame) as Hne.
  destruct (split LF frame) as [|line0 rest] eqn:Hlines; [congruence|].
  cbn [index nth_error bind].
  destruct (@header_loop_returns (List.length (line0 :: rest))
              (line0 :: rest) 1 []) as (j & headers & ->).
  { simpl. lia. }
  cbn [bind fst snd].
  destruct (Nat.ltb_spec (j + 1) (List.length (line0 :: rest))) as [Hj|Hj].
  - destruct (index_in_range (line0 :: rest) Hj) as [next ->].
    cbn [bind]. eauto.
  - cbn [bind]. eauto.
Qed.

(** C1, as stated, fails: an empty-string body is written exactly like an
    absent one and is decoded as absent. *)
Lemma roundtrip_empty_body_lost :
  frame_text (lit "SEND") [] (Some []) = frame_text (lit "SEND") [] None
  /\ _parse_message (frame_text (lit "SEND") [] (Some []))
     = Ok (lit "SEND", [], None)
  /\ _parse_message (frame_text (lit "SEND") [] (Some []))
     <> Ok (lit "SEND", [], Some []).
Proof.
  split; [reflexivity|]. split; [reflexivity|]. discriminate.
Qed.

(** C1 (amended): for a command without line feed and without surrounding
    white space, and headers with distinct keys, no colon or line feed in a
    key and no line feed in a value, decoding the frame written with an
    absent or an empty body gives back the command, the headers in their
    order, and an absent body. *)
Theorem parse_frame_text_no_body (command : str) (headers : dict str)
  (msg : option str) :
  ~ In LF command ->
  strip command = command ->
  NoDup (keys headers) ->
  Forall plain_header headers ->
  body_text msg = [] ->
  _parse_message (frame_text command headers msg)
  = Ok (command, headers, None).
Proof.
  intros Hlf Hstrip Hkeys Hplain Hbody.
  rewrite parse_frame_text by assumption.
  now rewrite Hbody.
Qed.

End CodecClaims.

Section CodecEvaluations.

Import Dispatcher.

Ltac not_in := vm_compute; intuition discriminate.

(** C1 (amended) at a CONNECT frame with two headers, one of them with a
    colon in its value. *)
Lemma parse_frame_text_no_body_witness :
  _parse_message
    (frame_text (lit "CONNECT")
       [(lit "host", lit "wss://broker:61614"); (lit "login", lit "guest")]
       None)
  = Ok (lit "CONNECT",
        [(lit "host", lit "wss://broker:61614"); (lit "login", lit "guest")],
        None).
Proof.
  apply parse_frame_text_no_body.
  - not_in.
  - reflexivity.
  - repeat constructor; not_in.
  - repeat constructor; not_in.
  - reflexivity.
Defined.

(** C2: the frame of the scenario is decoded with a body of six
    characters, the NULL octet last, and the callback registered for
    [/topic/x] is called once with that body. *)
Theorem hello_frame_body_keeps_null (cb : callback) :
  let st := Stomp.subscribe (lit "/topic/x") cb 1700000000%N (lit "0a1b2c3d")
              fresh_client in
  _parse_message hello_frame
  = Ok (lit "MESSAGE", [(lit "destination", lit "/topic/x")],
        Some (lit "hello" ++ BYTE_NULL))
  /\ invoked (snd (_on_message hello_frame st))
     = [(cb, Some (lit "hello" ++ BYTE_NULL))]
  /\ Some (lit "hello" ++ BYTE_NULL) <> Some (lit "hello").
Proof.
  split; [reflexivity|]. split; [|discriminate].
  unfold _on_message.
  change (_parse_message hello_frame)
    with (Ok (lit "MESSAGE", [(lit "destination", lit "/topic/x")],
              Some (lit "hello" ++ BYTE_NULL))).
  cbv beta iota.
  change (str_eqb (lit "MESSAGE") (lit "CONNECTED")) with false.
  change (str_eqb (lit "MESSAGE") (lit "ERROR")) with false.
  change (str_eqb (lit "MESSAGE") (lit "MESSAGE")) with true.
  cbv beta iota. unfold call_registered.
  change (dict_item [(lit "destination", lit "/topic/x")] (lit "destination"))
    with (Ok (lit "/topic/x")).
  cbv beta iota.
  change (dict_item _ (lit "/topic/x")) with (Ok cb).
  cbv beta iota zeta.
  destruct (cb_run cb (Some (lit "hello" ++ BYTE_NULL))) as [[]|e|];
    try reflexivity.
  destruct (is_KeyError e); reflexivity.
Qed.

(** C5, as stated, fails: a lone line feed is decoded as a frame whose
    command is the empty string, with no header and no body. *)
Lemma heartbeat_parsed_as_empty_command :
  _parse_message BYTE_LF = Ok ([], [], None).
Proof. reflexivity. Qed.

(** C5 (amended): a lone line feed is decoded as a frame with an empty
    command, which matches none of CONNECTED, ERROR and MESSAGE, so that
    [_on_message] only prints its trace line and returns. *)
Theorem heartbeat_is_ignored (st : client) :
  (exists headers body, _parse_message BYTE_LF = Ok ([], headers, body))
  /\ _on_message BYTE_LF st = (Ok tt, print (lit "<<< " ++ BYTE_LF) st).
Proof.
  split; [now exists [], None|]. reflexivity.
Qed.

(** [send] writes the number of code points as content-length. *)
Lemma send_content_length (destination message : str) :
  dict_get (send_headers destination message) (lit "content-length")
  = Some (str_of_nat (List.length message)).
Proof.
  unfold send_headers. apply dict_get_set_same.
Qed.

(** For a message of ASCII characters the two lengths agree. *)
Lemma utf8_len_ascii (message : str) :
  Forall (fun c => (c < 128)%N) message ->
  utf8_len message = List.length message.
Proof.
  induction 1 as [|c message Hc _ IH]; [reflexivity|].
  unfold utf8_len in *. simpl. rewrite IH. unfold utf8_width.
  apply N.ltb_lt in Hc. now rewrite Hc.
Qed.

(** C6: for the one-character message U+00E9, which takes two octets in
    UTF-8, [send] transmits a SEND frame with [content-length:1]. *)
Theorem send_content_length_non_ascii :
  let message : str := [233%N] in
  sent (Stomp.send (lit "/topic/x") message fresh_client)
  = [frame_text (lit "SEND")
       [(lit "destination", lit "/topic/x"); (lit "content-length", lit "1")]
       (Some message)]
  /\ utf8_len message = 2.
Proof.
  split; reflexivity.
Qed.

End CodecEvaluations.

(* ================================================================== *)
(** ** Inbound dispatch *)

Section Dispatch.

Import Dispatcher.

(** Case analysis on the innermost scrutinees first. *)
Ltac break_match :=
  repeat match goal with
         | |- context [match ?x with _ => _ end] =>
             lazymatch x with
             | context [match _ with _ => _ end] => fail
             | _ => destruct x
             end
         end.

(** What [_on_message] does with a MESSAGE frame. *)
Lemma on_message_MESSAGE (message : str) (headers : dict str)
  (body : option str) (st : client) :
  _parse_message message = Ok (lit "MESSAGE", headers, body) ->
  _on_message message st
  = match call_registered headers body (print (lit "<<< " ++ message) st) with
    | (Raise e, st') =>
        if is_KeyError e then (Ok tt, print (warning headers) st')
        else (Raise e, st')
    | other => other
    end.
Proof.
  intros H. unfold _on_message. rewrite H. reflexivity.
Qed.

(** What [_on_message] does with an ERROR frame. *)
Lemma on_message_ERROR (message : str) (headers : dict str)
  (body : option str) (st : client) :
  _parse_message message = Ok (lit "ERROR", headers, body) ->
  _on_message message st
  = (Ok tt,
     let st := print (lit "<<< " ++ message) st in
     let st :=
       print (lit "ERROR: "
              ++ dict_get_default headers (lit "message") (lit "Unknown error"))
         st in
     if truthy body then print (lit "Details: " ++ show body) st else st).
Proof.
  intros H. unfold _on_message. rewrite H. reflexivity.
Qed.

(** Only [Stomp.subscribe] writes the registry. *)
Lemma on_message_keeps_registry (message : str) (st : client) :
  callback_registry (snd (_on_message message st)) = callback_registry st.
Proof.
  unfold _on_message, call_registered. break_match; reflexivity.
Qed.

Lemma transmit_keeps_registry (command : str) (headers : dict str)
  (msg : option str) (st : client) :
  callback_registry (_transmit command headers msg st) = callback_registry st.
Proof.
  unfold _transmit, ws_send. simpl. destruct (link_down st); reflexivity.
Qed.

Lemma transmit_sent (command : str) (headers : dict str) (msg : option str)
  (st : client) :
  sent (_transmit command headers msg st)
  = match link_down st with
    | None => sent st ++ [frame_text command headers msg]
    | Some _ => sent st
    end.
Proof.
  unfold _transmit, ws_send. simpl. destruct (link_down st); reflexivity.
Qed.

(** [Stomp.subscribe] assigns the destination's entry of the registry. *)
Lemma subscribe_registry (destination : str) (cb : callback) (now : N)
  (uuid8 : str) (st : client) :
  callback_registry (Stomp.subscribe destination cb now uuid8 st)
  = dict_set (callback_registry st) destination cb.
Proof.
  unfold Stomp.subscribe, subscribe. now rewrite transmit_keeps_registry.
Qed.

(** A MESSAGE frame calls the callback registered for its destination, once,
    with the decoded body. *)
Lemma on_message_invokes (message : str) (headers : dict str)
  (body : option str) (destination : str) (cb : callback) (st : client) :
  _parse_message message = Ok (lit "MESSAGE", headers, body) ->
  dict_get headers (lit "destination") = Some destination ->
  dict_get (callback_registry st) destination = Some cb ->
  invoked (snd (_on_message message st)) = invoked st ++ [(cb, body)].
Proof.
  intros Hparse Hdest Hcb.
  rewrite (@on_message_MESSAGE message headers body st Hparse).
  unfold call_registered, dict_item. rewrite Hdest.
  change (callback_registry (print (lit "<<< " ++ message) st))
    with (callback_registry st).
  rewrite Hcb.
  destruct (cb_run cb body) as [[]|e|]; try reflexivity.
  destruct (is_KeyError e); reflexivity.
Qed.

(** A run of MESSAGE frames for one destination calls its callback once per
    frame and no other callback. *)
Lemma deliver_invokes (destination : str) (cb : callback)
  (inbound : list str) :
  forall st : client,
  Forall (message_for destination) inbound ->
  dict_get (callback_registry st) destination = Some cb ->
  exists bodies,
    List.length bodies = List.length inbound
    /\ invoked (deliver inbound st)
       = invoked st ++ List.map (fun b => (cb, b)) bodies.
Proof.
  induction inbound as [|message inbound IH]; intros st Hall Hcb.
  - exists []. simpl. now rewrite app_nil_r.
  - inversion Hall as [|? ? (headers & body & Hparse & Hdest) Hrest]; subst.
    destruct (IH (snd (_on_message message st)) Hrest) as (bodies & Hlen & Hinv).
    { now rewrite on_message_keeps_registry. }
    exists (body :: bodies). split; [simpl; now rewrite Hlen|].
    cbn [deliver]. rewrite Hinv.
    rewrite (@on_message_invokes message headers body destination cb st
               Hparse Hdest Hcb).
    now rewrite <- app_assoc.
Qed.

(** The wait of [connect()] ends only on a true flag. *)
Lemma wait_connected_true (inbound : list str) :
  forall (st : client) (b : bool),
  fst (Stomp.wait_connected inbound st) = Ok b -> b = true.
Proof.
  induction inbound as [|message inbound IH]; intros st b; simpl;
    destruct (connected st) as [[|]|]; simpl; try congruence.
  apply IH.
Qed.

(** [connect()] never returns false. *)
Lemma connect_never_false (inbound : list str) (st : client) :
  fst (Stomp.connect inbound st) <> Ok false.
Proof.
  unfold Stomp.connect. intros H. apply wait_connected_true in H.
  discriminate.
Qed.

End Dispatch.

(* ================================================================== *)
(** ** Properties of the client *)

Section ClientClaims.

Import Dispatcher.

(** C3, as stated, fails: on a client whose [connect()] was never called,
    [send("/topic/x", "abc")] hands a SEND frame to the transport. *)
Lemma send_before_connect_transmits :
  connected fresh_client = None
  /\ sent fresh_client = []
  /\ sent (Stomp.send (lit "/topic/x") (lit "abc") fresh_client)
     = [frame_text (lit "SEND")
          [(lit "destination", lit "/topic/x"); (lit "content-length", lit "3")]
          (Some (lit "abc"))].
Proof.
  repeat split.
Qed.

(** C3 (amended): [send] and [subscribe] do not look at the [connected]
    flag: whatever its value, while the link accepts writes, [send] hands
    the SEND frame and [subscribe] the SUBSCRIBE frame to the transport at
    once. *)
Theorem send_and_subscribe_transmit_at_once (st : client)
  (destination message : str) (cb : callback) (now : N) (uuid8 : str) :
  link_down st = None ->
  sent (Stomp.send destination message st)
  = sent st
    ++ [frame_text (lit "SEND") (send_headers destination message)
          (Some message)]
  /\ sent (Stomp.subscribe destination cb now uuid8 st)
     = sent st
       ++ [frame_text (lit "SUBSCRIBE")
             (subscribe_headers destination now uuid8) None].
Proof.
  intros Hup. split.
  - unfold Stomp.send, send. now rewrite transmit_sent, Hup.
  - unfold Stomp.subscribe, subscribe. rewrite transmit_sent. simpl.
    now rewrite Hup.
Qed.

(** C3 (amended) on a client whose [connected] attribute is not set. *)
Lemma send_and_subscribe_transmit_at_once_witness :
  connected fresh_client = None
  /\ link_down fresh_client = None
  /\ sent (Stomp.send (lit "/topic/x") (lit "abc") fresh_client)
     = sent fresh_client
       ++ [frame_text (lit "SEND")
             (send_headers (lit "/topic/x") (lit "abc")) (Some (lit "abc"))]
  /\ sent (Stomp.subscribe (lit "/topic/x") (quiet 0) 1700000000%N
             (lit "0a1b2c3d") fresh_client)
     = sent fresh_client
       ++ [frame_text (lit "SUBSCRIBE")
             (subscribe_headers (lit "/topic/x") 1700000000%N (lit "0a1b2c3d"))
             None].
Proof.
  split; [reflexivity|]. split; [reflexivity|].
  apply (@send_and_subscribe_transmit_at_once fresh_client (lit "/topic/x")
           (lit "abc") (quiet 0) 1700000000%N (lit "0a1b2c3d")).
  reflexivity.
Defined.

(** C4, as stated, fails: with the ERROR frame of the scenario delivered
    during its wait, [connect()] has not returned and the flag is still
    false. *)
Lemma connect_still_waits_after_error :
  _parse_message error_frame
  = Ok (lit "ERROR", [(lit "message", lit "bad creds")], None)
  /\ fst (Stomp.connect [error_frame] fresh_client) = OutOfFuel
  /\ fst (Stomp.connect [error_frame] fresh_client) <> Ok false
  /\ connected (snd (Stomp.connect [error_frame] fresh_client)) = Some false.
Proof.
  split; [reflexivity|]. split; [reflexivity|].
  split; [discriminate|reflexivity].
Qed.

(** C4 (amended): an inbound ERROR frame is only logged.  [_on_message]
    prints the [message] header (or [Unknown error]) and, when it is not
    empty, the body, and returns; the [connected] flag keeps its value, so a
    [connect()] that was waiting goes on waiting. *)
Theorem error_frame_is_only_logged (message : str) (headers : dict str)
  (body : option str) (st : client) :
  _parse_message message = Ok (lit "ERROR", headers, body) ->
  fst (_on_message message st) = Ok tt
  /\ console (snd (_on_message message st))
     = console st
       ++ [lit "<<< " ++ message;
           lit "ERROR: "
           ++ dict_get_default headers (lit "message") (lit "Unknown error")]
       ++ (if truthy body then [lit "Details: " ++ show body] else [])
  /\ connected (snd (_on_message message st)) = connected st
  /\ sent (snd (_on_message message st)) = sent st
  /\ (connected st = Some false ->
      fst (Stomp.wait_connected [message] st) = OutOfFuel).
Proof.
  intros Hparse.
  rewrite (@on_message_ERROR message headers body st Hparse).
  split; [reflexivity|]. split.
  { destruct (truthy body); simpl; rewrite <- ?app_assoc; reflexivity. }
  split; [destruct (truthy body); reflexivity|].
  split; [destruct (truthy body); reflexivity|].
  intros Hwait. cbn [Stomp.wait_connected]. rewrite Hwait.
  rewrite (@on_message_ERROR message headers body st Hparse).
  cbn [snd]. destruct (truthy body); simpl; now rewrite Hwait.
Qed.

(** C4 (amended) on the ERROR frame of the scenario, reaching a client
    whose [connect()] waits. *)
Lemma error_frame_is_only_logged_witness :
  let st := set_connected (Some false) fresh_client in
  fst (_on_message error_frame st) = Ok tt
  /\ console (snd (_on_message error_frame st))
     = [lit "<<< " ++ error_frame; lit "ERROR: bad creds"]
  /\ connected (snd (_on_message error_frame st)) = Some false
  /\ sent (snd (_on_message error_frame st)) = []
  /\ fst (Stomp.wait_connected [error_frame] st) = OutOfFuel.
Proof.
  intros st.
  destruct (@error_frame_is_only_logged error_frame
              [(lit "message", lit "bad creds")] None st eq_refl)
    as (H1 & H2 & H3 & H4 & H5).
  split; [exact H1|]. split; [exact H2|]. split; [exact H3|].
  split; [exact H4|]. exact (H5 eq_refl).
Defined.

(** C7: subscribing to a destination with [c1] and then with [c2] leaves
    the registry as one subscription with [c2] does, and every MESSAGE
    frame for that destination delivered afterwards calls [c2] and nothing
    else. *)
Theorem subscribe_twice_keeps_second (destination : str) (c1 c2 : callback)
  (now1 : N) (uuid1 : str) (now2 : N) (uuid2 : str) (st : client)
  (inbound : list str) :
  Forall (message_for destination) inbound ->
  let once := Stomp.subscribe destination c2 now2 uuid2 st in
  let twice :=
    Stomp.subscribe destination c2 now2 uuid2
      (Stomp.subscribe destination c1 now1 uuid1 st) in
  callback_registry twice = callback_registry once
  /\ dict_get (callback_registry twice) destination = Some c2
  /\ exists bodies,
       List.length bodies = List.length inbound
       /\ invoked (deliver inbound twice)
          = invoked twice ++ List.map (fun b => (c2, b)) bodies.
Proof.
  intros Hall once twice.
  assert (Hreg : callback_registry twice
                 = dict_set (callback_registry st) destination c2).
  { unfold twice. rewrite !subscribe_registry. apply dict_set_set. }
  split; [|split].
  - rewrite Hreg. unfold once. now rewrite subscribe_registry.
  - rewrite Hreg. apply dict_get_set_same.
  - apply deliver_invokes with (destination := destination); [exact Hall|].
    rewrite Hreg. apply dict_get_set_same.
Qed.

End ClientClaims.

Section DispatchClaims.

Import Dispatcher.

Lemma hello_frame_for_topic_x : message_for (lit "/topic/x") hello_frame.
Proof.
  exists [(lit "destination", lit "/topic/x")], (Some (lit "hello" ++ BYTE_NULL)).
  split; reflexivity.
Qed.

(** C7 on [/topic/x], two callbacks and two MESSAGE frames. *)
Lemma subscribe_twice_keeps_second_witness :
  let once :=
    Stomp.subscribe (lit "/topic/x") (quiet 2) 1700000001%N (lit "89abcdef")
      fresh_client in
  let twice :=
    Stomp.subscribe (lit "/topic/x") (quiet 2) 1700000001%N (lit "89abcdef")
      (Stomp.subscribe (lit "/topic/x") (quiet 1) 1700000000%N
         (lit "01234567") fresh_client) in
  callback_registry twice = callback_registry once
  /\ dict_get (callback_registry twice) (lit "/topic/x") = Some (quiet 2)
  /\ exists bodies,
       List.length bodies = 2
       /\ invoked (deliver [hello_frame; hello_frame] twice)
          = invoked twice ++ List.map (fun b => (quiet 2, b)) bodies.
Proof.
  apply (@subscribe_twice_keeps_second (lit "/topic/x") (quiet 1) (quiet 2)
           1700000000%N (lit "01234567") 1700000001%N (lit "89abcdef")
           fresh_client [hello_frame; hello_frame]).
  repeat constructor; exact hello_frame_for_topic_x.
Defined.

(** C8: a MESSAGE frame whose destination has no registered callback is
    dropped: [_on_message] prints the warning naming the destination and
    returns without raising; no callback is called and nothing is sent. *)
Theorem unrouted_message_dropped (message : str) (headers : dict str)
  (body : option str) (destination : str) (st : client) :
  _parse_message message = Ok (lit "MESSAGE", headers, body) ->
  dict_get headers (lit "destination") = Some destination ->
  dict_get (callback_registry st) destination = None ->
  _on_message message st
  = (Ok tt,
     print (lit "Warning: No callback registered for destination "
            ++ destination)
       (print (lit "<<< " ++ message) st))
  /\ invoked (snd (_on_message message st)) = invoked st
  /\ sent (snd (_on_message message st)) = sent st.
Proof.
  intros Hparse Hdest Hreg.
  rewrite (@on_message_MESSAGE message headers body st Hparse).
  unfold call_registered, dict_item, warning, dict_get_default.
  rewrite Hdest.
  change (callback_registry (print (lit "<<< " ++ message) st))
    with (callback_registry st).
  rewrite Hreg. repeat split.
Qed.

(** C8 on the MESSAGE frame of the scenario and an empty registry. *)
Lemma unrouted_message_dropped_witness :
  callback_registry fresh_client = []
  /\ _on_message hello_frame fresh_client
     = (Ok tt,
        print (lit "Warning: No callback registered for destination "
               ++ lit "/topic/x")
          (print (lit "<<< " ++ hello_frame) fresh_client))
  /\ invoked (snd (_on_message hello_frame fresh_client)) = []
  /\ sent (snd (_on_message hello_frame fresh_client)) = [].
Proof.
  split; [reflexivity|].
  apply (@unrouted_message_dropped hello_frame
           [(lit "destination", lit "/topic/x")]
           (Some (lit "hello" ++ BYTE_NULL)) (lit "/topic/x") fresh_client);
    reflexivity.
Defined.

(** C10: when the callback registered for the destination of a MESSAGE
    frame raises, a [KeyError] is caught by [_on_message], which returns
    after printing what it prints when no callback is registered; an
    exception of any other class leaves [_on_message]. *)
Theorem callback_exception_handling (message : str) (headers : dict str)
  (body : option str) (destination : str) (cb : callback) (e : exception)
  (st : client) :
  _parse_message message = Ok (lit "MESSAGE", headers, body) ->
  dict_get headers (lit "destination") = Some destination ->
  dict_get (callback_registry st) destination = Some cb ->
  cb_run cb body = Raise e ->
  if is_KeyError e then
    fst (_on_message message st) = Ok tt
    /\ console (snd (_on_message message st))
       = console (snd (_on_message message (set_callback_registry [] st)))
    /\ console (snd (_on_message message st))
       = console st
         ++ [lit "<<< " ++ message;
             lit "Warning: No callback registered for destination "
             ++ destination]
  else fst (_on_message message st) = Raise e.
Proof.
  intros Hparse Hdest Hreg Hrun.
  rewrite !(@on_message_MESSAGE message headers body _ Hparse).
  unfold call_registered, dict_item, warning, dict_get_default.
  rewrite Hdest.
  change (callback_registry (print (lit "<<< " ++ message) st))
    with (callback_registry st).
  rewrite Hreg. cbv beta iota zeta. rewrite Hrun.
  destruct (is_KeyError e); [|reflexivity].
  repeat split; simpl; now rewrite <- ?app_assoc.
Qed.

(** C10 on the MESSAGE frame of the scenario, with a callback raising
    [KeyError] and with one raising [ValueError]. *)
Lemma callback_exception_handling_witness :
  let st1 :=
    Stomp.subscribe (lit "/topic/x") (raising 1 KeyError) 1700000000%N
      (lit "01234567") fresh_client in
  let st2 :=
    Stomp.subscribe (lit "/topic/x") (raising 2 (Exception "ValueError"))
      1700000000%N (lit "01234567") fresh_client in
  (fst (_on_message hello_frame st1) = Ok tt
   /\ console (snd (_on_message hello_frame st1))
      = console (snd (_on_message hello_frame (set_callback_registry [] st1)))
   /\ console (snd (_on_message hello_frame st1))
      = console st1
        ++ [lit "<<< " ++ hello_frame;
            lit "Warning: No callback registered for destination "
            ++ lit "/topic/x"])
  /\ fst (_on_message hello_frame st2) = Raise (Exception "ValueError").
Proof.
  intros st1 st2. split.
  - apply (@callback_exception_handling hello_frame
             [(lit "destination", lit "/topic/x")]
             (Some (lit "hello" ++ BYTE_NULL)) (lit "/topic/x")
             (raising 1 KeyError) KeyError st1); reflexivity.
  - apply (@callback_exception_handling hello_frame
             [(lit "destination", lit "/topic/x")]
             (Some (lit "hello" ++ BYTE_NULL)) (lit "/topic/x")
             (raising 2 (Exception "ValueError")) (Exception "ValueError")
             st2); reflexivity.
Defined.

End DispatchClaims.

(* ================================================================== *)
(** ** Where decoding departs from what was written *)

Section CodecLimits.

Import Dispatcher.

(** White space around a command is lost. *)
Example command_is_stripped :
  _parse_message (frame_text (32%N :: lit "SEND") [] None)
  = Ok (lit "SEND", [], None).
Proof. reflexivity. Qed.

(** A colon in a header key moves the cut. *)
Example colon_in_key_moves_cut :
  _parse_message (frame_text (lit "SEND") [(lit "a:b", lit "c")] None)
  = Ok (lit "SEND", [(lit "a", lit "b:c")], None).
Proof. reflexivity. Qed.

(** Of a body of several lines only the first is returned. *)
Example second_body_line_is_dropped :
  _parse_message
    (frame_text (lit "SEND") [] (Some (lit "one" ++ BYTE_LF ++ lit "two")))
  = Ok (lit "SEND", [], Some (lit "one")).
Proof. reflexivity. Qed.

(** A header line without colon is skipped. *)
Example header_without_colon_is_skipped :
  _parse_message
    (lit "MESSAGE" ++ BYTE_LF ++ lit "nocolon" ++ BYTE_LF ++ lit "a:b"
     ++ BYTE_LF ++ BYTE_LF ++ BYTE_NULL)
  = Ok (lit "MESSAGE", [(lit "a", lit "b")], None).
Proof. reflexivity. Qed.

End CodecLimits.

(* ================================================================== *)
(** ** Decoding arbitrary wire text *)

Section Decoding.

Import Dispatcher.

Lemma split_parts_without (sep : char) (s : str) :
  Forall (fun l => ~ In sep l) (split sep s).
Proof.
  induction s as [|c s IH]; simpl.
  - constructor; [intros []|constructor].
  - unfold char_eqb. destruct (N.eqb_spec c sep) as [->|Hne].
    + constructor; [intros []|exact IH].
    + destruct (split sep s) as [|l ls]; [repeat constructor; simpl; intuition|].
      inversion IH as [|? ? Hl Hls]; subst.
      constructor; [|exact Hls]. simpl. intros [E|Hin]; [now apply Hne|].
      now apply Hl.
Qed.

(** A line cut in two was cut at its first colon. *)
Lemma split1_two (sep : char) (s key value : str) :
  split1 sep s = [key; value] ->
  s = key ++ sep :: value /\ ~ In sep key.
Proof.
  revert key. induction s as [|c s IH]; intros key; simpl; [discriminate|].
  unfold char_eqb. destruct (N.eqb_spec c sep) as [->|Hne].
  - intros H. injection H as <- <-. split; [reflexivity|intros []].
  - destruct (split1 sep s) as [|l [|l' [|]]]; try discriminate.
    intros H. injection H as <- <-.
    destruct (IH l eq_refl) as [-> Hl]. split; [reflexivity|].
    simpl. intros [E|Hin]; [now apply Hne|now apply Hl].
Qed.

Lemma split1_without (sep : char) (s : str) :
  ~ In sep s -> split1 sep s = [s].
Proof.
  induction s as [|c s IH]; simpl; intros H; [reflexivity|].
  unfold char_eqb. destruct (N.eqb_spec c sep) as [->|_].
  - exfalso. apply H. now left.
  - rewrite IH; [reflexivity|]. intros Hin. apply H. now right.
Qed.

Lemma absorb_without_colon (headers : dict str) (line : str) :
  ~ In COLON line -> absorb headers line = headers.
Proof.
  intros H. unfold absorb. now rewrite split1_without.
Qed.

Lemma absorb_header_line (headers : dict str) (kv : str * str) :
  ~ In COLON (fst kv) -> absorb headers (header_line kv) = store headers kv.
Proof.
  intros H. unfold absorb, header_line, store. simpl.
  now rewrite split1_app.
Qed.

(** One pass of the loop body over a line that is not empty. *)
Lemma header_step (line : str) (headers : dict str) :
  (let header_parts := split1 COLON line in
   if List.length header_parts =? 2 then
     key <- index header_parts 0 ;;
     value <- index header_parts 1 ;;
     Ok (dict_set headers key value)
   else Ok headers)
  = Ok (absorb headers line).
Proof.
  unfold absorb. cbv zeta.
  destruct (split1 COLON line) as [|key [|value [|]]]; reflexivity.
Qed.

(** The loop reads every line up to the blank one. *)
Lemma header_loop_lines (ls : list str) :
  forall (fuel : nat) (pre rest : list str) (acc : dict str),
  List.length ls < fuel ->
  Forall (fun l => l <> []) ls ->
  header_loop fuel (pre ++ ls ++ [] :: rest) (List.length pre) acc
  = Ok (List.length pre + List.length ls, fold_left absorb ls acc).
Proof.
  induction ls as [|l ls IH]; intros fuel pre rest acc Hfuel Hne.
  - destruct fuel as [|fuel]; [simpl in Hfuel; lia|]. simpl.
    rewrite length_app. simpl.
    destruct (Nat.ltb_spec (List.length pre)
                (List.length pre + S (List.length rest))); [|lia].
    rewrite index_app_at. simpl. now rewrite Nat.add_0_r.
  - destruct fuel as [|fuel]; [simpl in Hfuel; lia|].
    inversion Hne as [|? ? Hl Hrest]; subst.
    cbn [header_loop app]. rewrite length_app. cbn [List.length].
    destruct (Nat.ltb_spec (List.length pre)
                (List.length pre + S (List.length (ls ++ [] :: rest))));
      [|lia].
    rewrite index_app_at. cbn [bind].
    assert (E : is_empty l = false) by (destruct l; [congruence|reflexivity]).
    rewrite E, header_step. cbn [bind fold_left].
    replace (pre ++ l :: ls ++ [] :: rest)
      with ((pre ++ [l]) ++ ls ++ [] :: rest) by (now rewrite <- app_assoc).
    replace (List.length pre + 1) with (List.length (pre ++ [l]))
      by (rewrite length_app; reflexivity).
    rewrite IH; [|simpl in Hfuel; lia|exact Hrest].
    rewrite length_app. simpl. f_equal. f_equal. lia.
Qed.

(** Decoding a text laid out as command line, header lines, blank line and
    rest: the command is stripped, each header line is absorbed in turn and
    the body is read from the first line of the rest. *)
Lemma parse_wire_text (command : str) (lines : list str) (rest : str) :
  ~ In LF command ->
  Forall header_text lines ->
  _parse_message (wire_text command lines rest)
  = Ok (strip command, fold_left absorb lines [],
        body_of_lines (split LF rest)).
Proof.
  intros Hc Hlines. unfold _parse_message, wire_text.
  rewrite split_lines.
  2:{ constructor; [exact Hc|]. apply Forall_app. split.
      - eapply Forall_impl; [|exact Hlines]. now intros l [_ H].
      - constructor; [intros []|constructor]. }
  set (after := split LF rest).
  assert (Hafter : after <> []) by apply split_not_nil.
  destruct after as [|next after]; [congruence|]. clear Hafter.
  cbn [app index nth_error bind]. rewrite <- app_assoc. cbn [app].
  change (command :: lines ++ [] :: next :: after)
    with ([command] ++ lines ++ [] :: next :: after).
  rewrite header_loop_lines.
  2:{ rewrite !length_app. simpl. lia. }
  2:{ eapply Forall_impl; [|exact Hlines]. now intros l [H _]. }
  cbn [bind fst snd List.length app].
  rewrite !length_app. cbn [List.length].
  destruct (Nat.ltb_spec (1 + List.length lines + 1)
              (S (List.length lines + S (S (List.length after))))); [|lia].
  replace (command :: lines ++ [] :: next :: after)
    with ((command :: lines ++ [[]]) ++ next :: after)
    by (simpl; now rewrite <- app_assoc).
  replace (1 + List.length lines + 1)
    with (List.length (command :: lines ++ [[]]))
    by (simpl; rewrite length_app; simpl; lia).
  rewrite index_app_at. reflexivity.
Qed.

End Decoding.

Section DecodingProperties.

Import Dispatcher.

Ltac not_in := vm_compute; intuition discriminate.

Lemma has_colon_false (line : str) :
  has_colon line = false -> ~ In COLON line.
Proof.
  unfold has_colon. induction line as [|c line IH]; simpl; [tauto|].
  intros H. apply orb_false_iff in H as [Hc Hrest].
  unfold char_eqb in Hc. apply N.eqb_neq in Hc.
  intros [E|Hin]; [now apply Hc|now apply IH].
Qed.

Lemma absorb_only_colon_lines (lines : list str) :
  forall acc : dict str,
  fold_left absorb lines acc = fold_left absorb (filter has_colon lines) acc.
Proof.
  induction lines as [|l lines IH]; intros acc; simpl; [reflexivity|].
  destruct (has_colon l) eqn:E; simpl; [apply IH|].
  rewrite absorb_without_colon by (now apply has_colon_false). apply IH.
Qed.

(** X1: Header lines without colon are dropped: a frame decodes as the frame
    without them does. *)
Theorem lines_without_colon_dropped (command : str) (lines : list str)
  (rest : str) :
  ~ In LF command ->
  Forall header_text lines ->
  _parse_message (wire_text command lines rest)
  = _parse_message (wire_text command (filter has_colon lines) rest).
Proof.
  intros Hc Hlines.
  assert (Hkept : Forall header_text (filter has_colon lines)).
  { apply Forall_forall. intros l Hin. apply filter_In in Hin as [Hin _].
    revert l Hin. now apply Forall_forall. }
  rewrite !parse_wire_text by assumption.
  now rewrite absorb_only_colon_lines.
Qed.

Lemma lines_without_colon_dropped_witness :
  _parse_message
    (wire_text (lit "MESSAGE") [lit "garbage"; lit "a:b"; lit "more"]
       BYTE_NULL)
  = _parse_message (wire_text (lit "MESSAGE") [lit "a:b"] BYTE_NULL).
Proof.
  apply (@lines_without_colon_dropped (lit "MESSAGE")
           [lit "garbage"; lit "a:b"; lit "more"] BYTE_NULL).
  - not_in.
  - repeat constructor; try discriminate; not_in.
Defined.

Lemma dict_get_set {V} (d : dict V) (k k' : str) (v : V) :
  dict_get (dict_set d k v) k'
  = if str_eqb k k' then Some v else dict_get d k'.
Proof.
  induction d as [|[k0 v0] d IH]; simpl; [reflexivity|].
  destruct (str_eqb k0 k) eqn:E0; simpl.
  - apply str_eqb_eq in E0. subst k0. now destruct (str_eqb k k').
  - destruct (str_eqb k0 k') eqn:E1; [|exact IH].
    destruct (str_eqb k k') eqn:E2; [|reflexivity].
    apply str_eqb_eq in E1, E2. subst. now rewrite str_eqb_refl in E0.
Qed.

Lemma dict_get_store_all (hs : list (str * str)) (k : str) :
  forall acc : dict str,
  dict_get (fold_left store hs acc) k
  = match dict_get (rev hs) k with
    | Some v => Some v
    | None => dict_get acc k
    end.
Proof.
  induction hs as [|kv hs IH] using rev_ind; intros acc; [reflexivity|].
  rewrite fold_left_app, rev_unit. simpl. unfold store at 1.
  rewrite dict_get_set. destruct kv as [k0 v0]. simpl.
  destruct (str_eqb k0 k); [reflexivity|apply IH].
Qed.

Lemma absorb_header_lines (hs : list (str * str)) :
  Forall plain_header hs ->
  forall acc : dict str,
  fold_left absorb (List.map header_line hs) acc = fold_left store hs acc.
Proof.
  induction 1 as [|kv hs Hkv _ IH]; intros acc; [reflexivity|].
  simpl. rewrite absorb_header_line by apply Hkv. apply IH.
Qed.

Lemma header_line_text (kv : str * str) :
  plain_header kv -> header_text (header_line kv).
Proof.
  intros H. split; [|now apply header_line_no_LF].
  unfold header_line. destruct (fst kv); discriminate.
Qed.

(** X2: When a frame repeats a header key, the value decoded for it is the
    last one written. *)
Theorem repeated_header_last_wins (command : str) (hs : list (str * str))
  (rest : str) :
  ~ In LF command ->
  Forall plain_header hs ->
  exists headers body,
    _parse_message (wire_text command (List.map header_line hs) rest)
    = Ok (strip command, headers, body)
    /\ forall k, dict_get headers k = dict_get (rev hs) k.
Proof.
  intros Hc Hplain.
  rewrite parse_wire_text; [|exact Hc|].
  2:{ apply Forall_map. eapply Forall_impl; [|exact Hplain].
      intros kv. apply header_line_text. }
  do 2 eexists. split; [reflexivity|]. intros k.
  rewrite absorb_header_lines by exact Hplain.
  rewrite dict_get_store_all. simpl. now destruct (dict_get (rev hs) k).
Qed.

Lemma repeated_header_last_wins_witness :
  exists headers body,
    _parse_message
      (wire_text (lit "MESSAGE")
         (List.map header_line
            [(lit "destination", lit "/topic/a"); (lit "x", lit "1");
             (lit "destination", lit "/topic/b")])
         (lit "hi" ++ BYTE_NULL))
    = Ok (strip (lit "MESSAGE"), headers, body)
    /\ forall k,
         dict_get headers k
         = dict_get
             (rev [(lit "destination", lit "/topic/a"); (lit "x", lit "1");
                   (lit "destination", lit "/topic/b")]) k.
Proof.
  apply (@repeated_header_last_wins (lit "MESSAGE")
           [(lit "destination", lit "/topic/a"); (lit "x", lit "1");
            (lit "destination", lit "/topic/b")] (lit "hi" ++ BYTE_NULL)).
  - not_in.
  - repeat constructor; not_in.
Defined.

(** X3: A text without line feed is decoded as a bare command: stripped, with
    no header and no body. *)
Theorem text_without_line_feed_is_command (text : str) :
  ~ In LF text ->
  _parse_message text = Ok (strip text, [], None).
Proof.
  intros H. unfold _parse_message. rewrite split_without by exact H.
  reflexivity.
Qed.

Lemma text_without_line_feed_is_command_witness :
  _parse_message (lit "  CONNECTED ") = Ok (lit "CONNECTED", [], None).
Proof.
  apply (@text_without_line_feed_is_command (lit "  CONNECTED ")).
  not_in.
Defined.

End DecodingProperties.

(* ================================================================== *)
(** ** The shape of decoded frames *)

Section DecodedShape.

Import Dispatcher.

Lemma lstrip_incl (s : str) (c : char) : In c (lstrip s) -> In c s.
Proof.
  induction s as [|x s IH]; simpl; [tauto|].
  destruct (isspace x); [intros H; right; now apply IH|tauto].
Qed.

Lemma rstrip_incl (s : str) (c : char) : In c (rstrip s) -> In c s.
Proof.
  unfold rstrip. intros H. apply in_rev in H. apply lstrip_incl in H.
  now apply in_rev in H.
Qed.

Lemma strip_incl (s : str) (c : char) : In c (strip s) -> In c s.
Proof.
  unfold strip. intros H. now apply lstrip_incl, rstrip_incl.
Qed.

Lemma lstrip_idem (s : str) : lstrip (lstrip s) = lstrip s.
Proof.
  induction s as [|x s IH]; simpl; [reflexivity|].
  destruct (isspace x) eqn:E; [exact IH|]. simpl. now rewrite E.
Qed.

Lemma lstrip_keeps_last (s : str) (c : char) :
  isspace c = false -> lstrip (s ++ [c]) = lstrip s ++ [c].
Proof.
  intros Hc. induction s as [|x s IH]; simpl; [now rewrite Hc|].
  destruct (isspace x); [exact IH|reflexivity].
Qed.

Lemma rstrip_keeps_first (c : char) (s : str) :
  isspace c = false -> rstrip (c :: s) = c :: rstrip s.
Proof.
  intros Hc. unfold rstrip. simpl.
  rewrite lstrip_keeps_last by exact Hc. now rewrite rev_unit.
Qed.

Lemma rstrip_idem (s : str) : rstrip (rstrip s) = rstrip s.
Proof.
  unfold rstrip. now rewrite rev_involutive, lstrip_idem.
Qed.

Lemma lstrip_head (s : str) :
  lstrip s = [] \/ exists c t, lstrip s = c :: t /\ isspace c = false.
Proof.
  induction s as [|x s IH]; simpl; [now left|].
  destruct (isspace x) eqn:E; [exact IH|]. right. now exists x, s.
Qed.

(** [strip] leaves nothing more to strip. *)
Lemma strip_idem (s : str) : strip (strip s) = strip s.
Proof.
  unfold strip.
  destruct (lstrip_head s) as [E|(c & t & E & Hc)]; rewrite E.
  - reflexivity.
  - rewrite (@rstrip_keeps_first c t Hc). simpl. rewrite Hc.
    rewrite <- (@rstrip_keeps_first c t Hc). apply rstrip_idem.
Qed.

Lemma keys_dict_set (d : dict str) (k v x : str) :
  In x (keys (dict_set d k v)) -> In x (keys d) \/ x = k.
Proof.
  unfold keys. induction d as [|[k0 v0] d IH]; simpl.
  - intros [E|[]]. now right.
  - destruct (str_eqb k0 k); simpl; [tauto|].
    intros [E|Hin]; [tauto|]. destruct (IH Hin); tauto.
Qed.

Lemma dict_set_NoDup (d : dict str) (k v : str) :
  NoDup (keys d) -> NoDup (keys (dict_set d k v)).
Proof.
  unfold keys. induction d as [|[k0 v0] d IH]; simpl; intros H.
  - constructor; [intros []|constructor].
  - inversion H as [|? ? Hk0 Hd]; subst.
    destruct (str_eqb k0 k) eqn:E; simpl; [now constructor|].
    constructor; [|now apply IH].
    intros Hin. apply keys_dict_set in Hin as [Hin|Hin]; [now apply Hk0|].
    subst. now rewrite str_eqb_refl in E.
Qed.

Lemma dict_set_plain (d : dict str) (k v : str) :
  plain_header (k, v) -> Forall plain_header d ->
  Forall plain_header (dict_set d k v).
Proof.
  intros Hkv. induction 1 as [|[k0 v0] d Hk0 Hd IH]; simpl.
  - constructor; [exact Hkv|constructor].
  - destruct (str_eqb k0 k) eqn:E.
    + apply str_eqb_eq in E. subst. now constructor.
    + now constructor.
Qed.

Lemma absorb_shape (headers : dict str) (line : str) :
  ~ In LF line ->
  NoDup (keys headers) /\ Forall plain_header headers ->
  NoDup (keys (absorb headers line))
  /\ Forall plain_header (absorb headers line).
Proof.
  intros Hline [Hk Hp]. unfold absorb.
  destruct (split1 COLON line) as [|key [|value [|]]] eqn:E; try tauto.
  apply split1_two in E as [-> Hkey]. split.
  - now apply dict_set_NoDup.
  - apply dict_set_plain; [|exact Hp]. repeat split; simpl.
    + exact Hkey.
    + intros Hin. apply Hline, in_or_app. now left.
    + intros Hin. apply Hline, in_or_app. right. now right.
Qed.

Lemma header_loop_shape (fuel : nat) (lines : list str) :
  Forall (fun l => ~ In LF l) lines ->
  forall (i : nat) (acc : dict str) (j : nat) (headers : dict str),
  NoDup (keys acc) /\ Forall plain_header acc ->
  header_loop fuel lines i acc = Ok (j, headers) ->
  NoDup (keys headers) /\ Forall plain_header headers.
Proof.
  intros Hlines. induction fuel as [|fuel IH]; intros i acc j headers Hacc;
    simpl; [discriminate|].
  destruct (i <? List.length lines); [|intros H; now injection H as <- <-].
  unfold index. destruct (nth_error lines i) as [line|] eqn:Hi;
    [|discriminate]. cbn [bind].
  destruct (is_empty line); [intros H; now injection H as <- <-|].
  rewrite header_step. cbn [bind]. apply IH.
  apply absorb_shape; [|exact Hacc].
  apply nth_error_In in Hi. revert line Hi. now apply Forall_forall.
Qed.

Lemma parse_decoded_shape (frame command : str) (headers : dict str)
  (body : option str) :
  _parse_message frame = Ok (command, headers, body) ->
  decoded_shape command headers body.
Proof.
  unfold _parse_message.
  pose proof (split_parts_without LF frame) as Hlines.
  pose proof (split_not_nil LF frame) as Hne.
  destruct (split LF frame) as [|line0 rest]; [congruence|].
  cbn [index nth_error bind].
  destruct (header_loop (List.length (line0 :: rest)) (line0 :: rest) 1 [])
    as [[i hs]|e|] eqn:Hloop; try discriminate.
  cbn [bind fst snd].
  assert (Hshape : NoDup (keys hs) /\ Forall plain_header hs).
  { eapply header_loop_shape; [exact Hlines| |exact Hloop].
    split; constructor. }
  assert (Hbody :
    forall b, (if i + 1 <? List.length (line0 :: rest)
               then next <- index (line0 :: rest) (i + 1) ;;
                    Ok (if str_eqb next BYTE_NULL then None else Some next)
               else Ok None) = Ok b ->
              forall text, b = Some text ->
                           ~ In LF text /\ text <> BYTE_NULL).
  { intros b Hb text ->.
    destruct (i + 1 <? List.length (line0 :: rest)); [|discriminate].
    unfold index in Hb.
    destruct (nth_error (line0 :: rest) (i + 1)) as [next|] eqn:Hn;
      [|discriminate].
    cbn [bind] in Hb. destruct (str_eqb next BYTE_NULL) eqn:E;
      [discriminate|].
    injection Hb as <-. split.
    - apply nth_error_In in Hn. revert next Hn E.
      intros next Hn _. revert next Hn. now apply Forall_forall.
    - now apply str_eqb_neq. }
  destruct (if i + 1 <? List.length (line0 :: rest)
            then next <- index (line0 :: rest) (i + 1) ;;
                 Ok (if str_eqb next BYTE_NULL then None else Some next)
            else Ok None) as [b|e|] eqn:Hb; try discriminate.
  cbn [bind]. intros H. injection H as <- <- <-.
  unfold decoded_shape. split; [apply strip_idem|]. split.
  - intros Hin. apply strip_incl in Hin.
    inversion Hlines; subst. tauto.
  - split; [apply Hshape|]. split; [apply Hshape|]. now apply Hbody.
Qed.

(** X4: Whatever the input, the decoded command is stripped and on one line,
    the decoded keys are distinct and free of colons, no decoded key or
    value holds a line feed, and a decoded body is one line. *)
Theorem parse_message_shape (frame command : str) (headers : dict str)
  (body : option str) :
  _parse_message frame = Ok (command, headers, body) ->
  strip command = command
  /\ ~ In LF command
  /\ NoDup (keys headers)
  /\ Forall plain_header headers
  /\ (forall text, body = Some text -> ~ In LF text /\ text <> BYTE_NULL).
Proof.
  apply parse_decoded_shape.
Qed.

Lemma parse_message_shape_witness :
  decoded_shape (lit "MESSAGE") [(lit "destination", lit "/topic/x")]
    (Some (lit "hello" ++ BYTE_NULL)).
Proof.
  apply (@parse_message_shape hello_frame). reflexivity.
Defined.

(** X5: A frame decoded without body can be written again and decodes to
    itself. *)
Theorem decoded_frame_rewrites (frame command : str) (headers : dict str) :
  _parse_message frame = Ok (command, headers, None) ->
  _parse_message (frame_text command headers None)
  = Ok (command, headers, None).
Proof.
  intros H. apply parse_decoded_shape in H as (Hs & Hc & Hk & Hp & _).
  now rewrite parse_frame_text.
Qed.

Lemma decoded_frame_rewrites_witness :
  _parse_message
    (frame_text (lit "CONNECTED") [(lit "heart-beat", lit "0,0")] None)
  = Ok (lit "CONNECTED", [(lit "heart-beat", lit "0,0")], None).
Proof.
  apply (@decoded_frame_rewrites
           (32%N :: lit "CONNECTED" ++ [13%N] ++ BYTE_LF ++ lit "junk"
            ++ BYTE_LF ++ lit "heart-beat:1,1" ++ BYTE_LF
            ++ lit "heart-beat:0,0" ++ BYTE_LF ++ BYTE_LF ++ BYTE_NULL)).
  reflexivity.
Defined.

End DecodedShape.

(* ================================================================== *)
(** ** Transmission *)

Section Transmission.

Import Dispatcher.

Ltac not_in := vm_compute; intuition discriminate.

Lemma transmit_closed (command : str) (headers : dict str)
  (msg : option str) (e : str) (st : client) :
  link_down st = Some e ->
  _transmit command headers msg st
  = print (lit "Connection to remote host was lost.")
      (print (lit "Error sending message: " ++ e)
         (print (lit ">>>" ++ frame_text command headers msg) st)).
Proof.
  intros H. unfold _transmit, ws_send. simpl. now rewrite H.
Qed.

(** X6: [send] on a lost connection does not raise and hands nothing to the
    transport: it prints the frame and two lines of report, and leaves the
    flag and the registry alone. *)
Theorem send_on_closed_link (destination message e : str) (st : client) :
  link_down st = Some e ->
  sent (Stomp.send destination message st) = sent st
  /\ console (Stomp.send destination message st)
     = console st
       ++ [lit ">>>"
           ++ frame_text (lit "SEND") (send_headers destination message)
                (Some message);
           lit "Error sending message: " ++ e;
           lit "Connection to remote host was lost."]
  /\ connected (Stomp.send destination message st) = connected st
  /\ callback_registry (Stomp.send destination message st)
     = callback_registry st.
Proof.
  intros H. unfold Stomp.send, send. rewrite (@transmit_closed _ _ _ e st H).
  simpl. now rewrite <- !app_assoc.
Qed.

Lemma send_on_closed_link_witness :
  let st := lose_link (lit "socket is already closed.") fresh_client in
  sent (Stomp.send (lit "/topic/x") (lit "abc") st) = sent st
  /\ console (Stomp.send (lit "/topic/x") (lit "abc") st)
     = console st
       ++ [lit ">>>"
           ++ frame_text (lit "SEND")
                (send_headers (lit "/topic/x") (lit "abc"))
                (Some (lit "abc"));
           lit "Error sending message: " ++ lit "socket is already closed.";
           lit "Connection to remote host was lost."]
  /\ connected (Stomp.send (lit "/topic/x") (lit "abc") st) = connected st
  /\ callback_registry (Stomp.send (lit "/topic/x") (lit "abc") st)
     = callback_registry st.
Proof.
  intros st.
  apply (@send_on_closed_link (lit "/topic/x") (lit "abc")
           (lit "socket is already closed.") st).
  reflexivity.
Defined.

(** X7: [subscribe] on a lost connection still registers the callback, though
    no SUBSCRIBE frame goes out. *)
Theorem subscribe_on_closed_link (destination : str) (cb : callback)
  (now : N) (uuid8 e : str) (st : client) :
  link_down st = Some e ->
  sent (Stomp.subscribe destination cb now uuid8 st) = sent st
  /\ dict_get (callback_registry (Stomp.subscribe destination cb now uuid8 st))
       destination
     = Some cb.
Proof.
  intros H. split.
  - unfold Stomp.subscribe, subscribe. rewrite transmit_sent. simpl.
    now rewrite H.
  - rewrite subscribe_registry. apply dict_get_set_same.
Qed.

Lemma subscribe_on_closed_link_witness :
  let st := lose_link (lit "socket is already closed.") fresh_client in
  sent (Stomp.subscribe (lit "/topic/x") (quiet 0) 1700000000%N
          (lit "0a1b2c3d") st) = sent st
  /\ dict_get
       (callback_registry
          (Stomp.subscribe (lit "/topic/x") (quiet 0) 1700000000%N
             (lit "0a1b2c3d") st)) (lit "/topic/x")
     = Some (quiet 0).
Proof.
  intros st.
  apply (@subscribe_on_closed_link (lit "/topic/x") (quiet 0) 1700000000%N
           (lit "0a1b2c3d") (lit "socket is already closed.") st).
  reflexivity.
Defined.

Lemma connect_as_transmit (st : client) :
  Dispatcher.connect st
  = _transmit (lit "CONNECT") (connect_headers st) None st.
Proof.
  unfold Dispatcher.connect, connect_headers.
  destruct (username st), (password st); reflexivity.
Qed.

Lemma connect_headers_keys (st : client) :
  NoDup (keys (connect_headers st))
  /\ Forall (fun k => ~ In COLON k /\ ~ In LF k) (keys (connect_headers st)).
Proof.
  unfold connect_headers.
  destruct (username st), (password st); simpl; split;
    repeat constructor; not_in.
Qed.

(** X8: The CONNECT frame a client writes decodes to the command CONNECT, the
    headers host, accept-version, heart-beat and, when set, login and
    passcode, in this order, and no body; the credentials may hold colons
    but no line feed. *)
Theorem connect_frame_decodes (st : client) :
  ~ In LF (url st) ->
  (forall u, username st = Some u -> ~ In LF u) ->
  (forall p, password st = Some p -> ~ In LF p) ->
  link_down st = None ->
  exists frame,
    sent (Dispatcher.connect st) = sent st ++ [frame]
    /\ _parse_message frame = Ok (lit "CONNECT", connect_headers st, None).
Proof.
  intros Hurl Hu Hp Hup.
  exists (frame_text (lit "CONNECT") (connect_headers st) None). split.
  - now rewrite connect_as_transmit, transmit_sent, Hup.
  - rewrite parse_frame_text; [reflexivity|not_in|reflexivity| |].
    + apply connect_headers_keys.
    + unfold connect_headers.
      destruct (username st) as [u|], (password st) as [p|];
        repeat constructor; simpl; try exact Hurl; try (now apply Hu);
        try (now apply Hp); not_in.
Qed.

Lemma connect_frame_decodes_witness :
  let st := Stomp.__init__ (lit "broker:61614") true true
              (Some (lit "guest")) (Some (lit "pa:ss")) in
  exists frame,
    sent (Dispatcher.connect st) = sent st ++ [frame]
    /\ _parse_message frame
       = Ok (lit "CONNECT",
             [(lit "host", lit "wss://broker:61614/websocket");
              (lit "accept-version", lit "1.0,1.1");
              (lit "heart-beat", lit "10000,10000");
              (lit "login", lit "guest");
              (lit "passcode", lit "pa:ss")],
             None).
Proof.
  intros st. apply (@connect_frame_decodes st).
  - not_in.
  - intros u H. injection H as <-. not_in.
  - intros p H. injection H as <-. not_in.
  - reflexivity.
Defined.

End Transmission.

(* ================================================================== *)
(** ** The session *)

Section Session.

Import Dispatcher.

Ltac break_match :=
  repeat match goal with
         | |- context [match ?x with _ => _ end] =>
             lazymatch x with
             | context [match _ with _ => _ end] => fail
             | _ => destruct x
             end
         end.

(** Inbound dispatch never writes to the transport. *)
Lemma on_message_keeps_sent (message : str) (st : client) :
  sent (snd (_on_message message st)) = sent st.
Proof.
  unfold _on_message, call_registered. break_match; reflexivity.
Qed.


(** What a CONNECTED frame does. *)
Lemma on_message_CONNECTED (message : str) (st : client) :
  CONNECTED_frame message ->
  _on_message message st
  = (Ok tt,
     print (lit "Successfully connected to STOMP server")
       (set_connected (Some true) (print (lit "<<< " ++ message) st))).
Proof.
  intros (headers & body & H). unfold _on_message. rewrite H. reflexivity.
Qed.

(** Only a CONNECTED frame writes the flag. *)
Lemma on_message_other_flag (message : str) (st : client) :
  ~ CONNECTED_frame message ->
  connected (snd (_on_message message st)) = connected st.
Proof.
  intros Hno. unfold _on_message.
  destruct (_parse_message message) as [[[command headers] body]|e|] eqn:H;
    try reflexivity.
  destruct (str_eqb command (lit "CONNECTED")) eqn:E.
  { exfalso. apply Hno. apply str_eqb_eq in E. subst. now exists headers, body. }
  unfold call_registered. break_match; reflexivity.
Qed.

Lemma CONNECTED_frame_dec (message : str) :
  CONNECTED_frame message \/ ~ CONNECTED_frame message.
Proof.
  unfold CONNECTED_frame.
  destruct (_parse_message message) as [[[command headers] body]|e|];
    try (right; intros (h & b & H); discriminate).
  destruct (str_eqb command (lit "CONNECTED")) eqn:E.
  - apply str_eqb_eq in E. subst. left. now exists headers, body.
  - right. intros (h & b & H). injection H as -> _ _.
    now rewrite str_eqb_refl in E.
Qed.

Lemma wait_connected_iff (inbound : list str) :
  forall st : client,
  connected st = Some false ->
  (fst (Stomp.wait_connected inbound st) = Ok true
   <-> Exists CONNECTED_frame inbound)
  /\ (fst (Stomp.wait_connected inbound st) = OutOfFuel
      <-> ~ Exists CONNECTED_frame inbound).
Proof.
  induction inbound as [|message inbound IH]; intros st Hst.
  - simpl. rewrite Hst. simpl. split; split.
    + discriminate.
    + intros H. inversion H.
    + intros _ H. inversion H.
    + reflexivity.
  - cbn [Stomp.wait_connected]. rewrite Hst.
    destruct (CONNECTED_frame_dec message) as [Hc|Hc].
    + rewrite (on_message_CONNECTED st Hc). cbn [snd].
      assert (E : forall st',
                 fst (Stomp.wait_connected inbound
                        (print (lit "Successfully connected to STOMP server")
                           (set_connected (Some true) st')))
                 = Ok true) by (intros st'; destruct inbound; reflexivity).
      rewrite E. split; split.
      * intros _. now apply Exists_cons_hd.
      * reflexivity.
      * discriminate.
      * intros H. exfalso. apply H. now apply Exists_cons_hd.
    + destruct (IH (snd (_on_message message st))) as [IH1 IH2].
      { now rewrite on_message_other_flag. }
      split; [rewrite IH1|rewrite IH2]; split.
      * intros H. now apply Exists_cons_tl.
      * intros H. inversion H; subst; [contradiction|assumption].
      * intros H H'. apply H. inversion H'; subst; [contradiction|assumption].
      * intros H H'. apply H. now apply Exists_cons_tl.
Qed.

(** X9: [connect()] returns, and then returns true, exactly when one of the
    texts delivered during its wait decodes as a CONNECTED frame; it waits
    for one even if the client was connected before the call. *)
Theorem connect_returns_iff_CONNECTED (inbound : list str) (st : client) :
  (fst (Stomp.connect inbound st) = Ok true
   <-> Exists CONNECTED_frame inbound)
  /\ (fst (Stomp.connect inbound st) = OutOfFuel
      <-> ~ Exists CONNECTED_frame inbound).
Proof.
  unfold Stomp.connect. apply wait_connected_iff.
  rewrite connect_as_transmit. unfold _transmit, ws_send. simpl.
  destruct (link_down st); reflexivity.
Qed.

Lemma wait_connected_keeps_sent (inbound : list str) :
  forall st : client,
  sent (snd (Stomp.wait_connected inbound st)) = sent st.
Proof.
  induction inbound as [|message inbound IH]; intros st; simpl;
    destruct (connected st) as [[|]|]; try reflexivity.
  now rewrite IH, on_message_keeps_sent.
Qed.

(** X10: Whatever is delivered while it waits, [connect()] writes one frame,
    its CONNECT frame, and no other. *)
Theorem connect_sends_one_frame (inbound : list str) (st : client) :
  link_down st = None ->
  sent (snd (Stomp.connect inbound st))
  = sent st ++ [frame_text (lit "CONNECT") (connect_headers st) None].
Proof.
  intros Hup. unfold Stomp.connect.
  rewrite wait_connected_keeps_sent, connect_as_transmit, transmit_sent.
  simpl. now rewrite Hup.
Qed.

Lemma connect_sends_one_frame_witness :
  sent (snd (Stomp.connect [error_frame; hello_frame] fresh_client))
  = sent fresh_client
    ++ [frame_text (lit "CONNECT") (connect_headers fresh_client) None].
Proof.
  apply (@connect_sends_one_frame [error_frame; hello_frame] fresh_client).
  reflexivity.
Defined.

Lemma disconnect_clears_flag (st : client) :
  connected (Stomp.disconnect st) <> Some true.
Proof.
  unfold Stomp.disconnect.
  destruct (connected st) as [[|]|] eqn:E; simpl; rewrite ?E; discriminate.
Qed.

(** X11: [disconnect()] leaves a client that is not connected: it never leaves
    the flag true, and a second call changes nothing and writes nothing. *)
Theorem disconnect_idempotent (st : client) :
  connected (Stomp.disconnect st) <> Some true
  /\ Stomp.disconnect (Stomp.disconnect st) = Stomp.disconnect st.
Proof.
  split; [apply disconnect_clears_flag|].
  pose proof (disconnect_clears_flag st) as H.
  unfold Stomp.disconnect at 1.
  destruct (connected (Stomp.disconnect st)) as [[|]|]; congruence.
Qed.

(** X12: After [disconnect()] the heartbeat thread writes nothing more. *)
Theorem no_heartbeat_after_disconnect (ticks : nat) (st : client) :
  run (repeat Heartbeat ticks) (Stomp.disconnect st) = Stomp.disconnect st.
Proof.
  induction ticks as [|ticks IH]; [reflexivity|].
  cbn [repeat run step].
  assert (E : send_heartbeat (Stomp.disconnect st) = Stomp.disconnect st).
  { unfold send_heartbeat.
    pose proof (disconnect_clears_flag st) as H.
    destruct (connected (Stomp.disconnect st)) as [[|]|]; congruence. }
  rewrite E. exact IH.
Qed.






End Session.

(* ================================================================== *)
(** ** Dispatch of MESSAGE frames *)

Section Routing.

Import Dispatcher.

Ltac not_in := vm_compute; intuition discriminate.




(** X16: A MESSAGE frame without destination header is dropped with the warning
    naming the destination [unknown]; no callback is called. *)
Theorem message_without_destination (message : str) (headers : dict str)
  (body : option str) (st : client) :
  _parse_message message = Ok (lit "MESSAGE", headers, body) ->
  dict_get headers (lit "destination") = None ->
  _on_message message st
  = (Ok tt,
     print (lit "Warning: No callback registered for destination unknown")
       (print (lit "<<< " ++ message) st))
  /\ invoked (snd (_on_message message st)) = invoked st.
Proof.
  intros Hp Hd.
  rewrite (@on_message_MESSAGE message headers body st Hp).
  unfold call_registered, dict_item, warning, dict_get_default.
  rewrite Hd. split; reflexivity.
Qed.

Lemma message_without_destination_witness :
  let message :=
    lit "MESSAGE" ++ BYTE_LF ++ lit "subscription:sub-0" ++ BYTE_LF
    ++ BYTE_LF ++ lit "hello" ++ BYTE_NULL in
  let st :=
    Stomp.subscribe (lit "/topic/x") (quiet 0) 1700000000%N (lit "01234567")
      fresh_client in
  _on_message message st
  = (Ok tt,
     print (lit "Warning: No callback registered for destination unknown")
       (print (lit "<<< " ++ message) st))
  /\ invoked (snd (_on_message message st)) = invoked st.
Proof.
  intros message st.
  apply (@message_without_destination message
           [(lit "subscription", lit "sub-0")]
           (Some (lit "hello" ++ BYTE_NULL)) st); reflexivity.
Defined.

Lemma transmit_keeps_invoked (command : str) (headers : dict str)
  (msg : option str) (st : client) :
  invoked (_transmit command headers msg st) = invoked st.
Proof.
  unfold _transmit, ws_send. simpl. destruct (link_down st); reflexivity.
Qed.

(** X17: Subscribing to one destination leaves the others alone: a MESSAGE frame
    for another destination still reaches the callback that destination
    had. *)
Theorem other_subscription_untouched (d1 d2 : str) (cb1 cb2 : callback)
  (now : N) (uuid8 : str) (st : client) (message : str)
  (headers : dict str) (body : option str) :
  d1 <> d2 ->
  dict_get (callback_registry st) d1 = Some cb1 ->
  _parse_message message = Ok (lit "MESSAGE", headers, body) ->
  dict_get headers (lit "destination") = Some d1 ->
  invoked (snd (_on_message message (Stomp.subscribe d2 cb2 now uuid8 st)))
  = invoked st ++ [(cb1, body)].
Proof.
  intros Hne Hreg Hp Hd.
  rewrite (@on_message_invokes message headers body d1 cb1 _ Hp Hd).
  - unfold Stomp.subscribe, subscribe. now rewrite transmit_keeps_invoked.
  - rewrite subscribe_registry, dict_get_set.
    destruct (str_eqb d2 d1) eqn:E; [|exact Hreg].
    apply str_eqb_eq in E. congruence.
Qed.

Lemma other_subscription_untouched_witness :
  let st :=
    Stomp.subscribe (lit "/topic/x") (quiet 1) 1700000000%N (lit "01234567")
      fresh_client in
  invoked
    (snd (_on_message hello_frame
            (Stomp.subscribe (lit "/topic/y") (quiet 2) 1700000001%N
               (lit "89abcdef") st)))
  = invoked st ++ [(quiet 1, Some (lit "hello" ++ BYTE_NULL))].
Proof.
  intros st.
  apply (@other_subscription_untouched (lit "/topic/x") (lit "/topic/y")
           (quiet 1) (quiet 2) 1700000001%N (lit "89abcdef") st hello_frame
           [(lit "destination", lit "/topic/x")]
           (Some (lit "hello" ++ BYTE_NULL))); try reflexivity.
  discriminate.
Defined.

Lemma digits_no_LF (u : Decimal.uint) : ~ In LF (digits u).
Proof.
  induction u; simpl; intros H; try tauto;
    destruct H as [H|H]; try discriminate; tauto.
Qed.

(** X18: The SUBSCRIBE frame a client writes decodes to the command SUBSCRIBE
    with the headers id, ack (client) and destination, in this order, and
    no body. *)
Theorem subscribe_frame_decodes (destination : str) (cb : callback)
  (now : N) (uuid8 : str) (st : client) :
  ~ In LF destination ->
  ~ In LF uuid8 ->
  link_down st = None ->
  exists frame,
    sent (Stomp.subscribe destination cb now uuid8 st) = sent st ++ [frame]
    /\ _parse_message frame
       = Ok (lit "SUBSCRIBE",
             [(lit "id", lit "sub-" ++ str_of_N now ++ lit "-" ++ uuid8);
              (lit "ack", lit "client");
              (lit "destination", destination)],
             None).
Proof.
  intros Hd Hu Hup.
  exists (frame_text (lit "SUBSCRIBE")
            (subscribe_headers destination now uuid8) None). split.
  - unfold Stomp.subscribe, subscribe. rewrite transmit_sent. simpl.
    now rewrite Hup.
  - rewrite parse_frame_text; [reflexivity|not_in|reflexivity| |].
    + repeat constructor; not_in.
    + unfold subscribe_headers. repeat constructor; simpl;
        try exact Hd; try not_in.
      intros [H|[H|[H|[H|H]]]]; try discriminate.
      apply in_app_or in H as [H|H]; [now apply (digits_no_LF _ H)|].
      destruct H as [H|H]; [discriminate|now apply Hu].
Qed.

Lemma subscribe_frame_decodes_witness :
  exists frame,
    sent (Stomp.subscribe (lit "/topic/x") (quiet 0) 1700000000%N
            (lit "0a1b2c3d") fresh_client)
    = sent fresh_client ++ [frame]
    /\ _parse_message frame
       = Ok (lit "SUBSCRIBE",
             [(lit "id", lit "sub-1700000000-0a1b2c3d");
              (lit "ack", lit "client");
              (lit "destination", lit "/topic/x")],
             None).
Proof.
  apply (@subscribe_frame_decodes (lit "/topic/x") (quiet 0) 1700000000%N
           (lit "0a1b2c3d") fresh_client).
  - not_in.
  - not_in.
  - reflexivity.
Defined.

(** X19: For a message of ASCII characters the content-length that [send]
    writes is the number of octets of the body. *)
Theorem send_content_length_ascii (destination message : str) :
  Forall (fun c => (c < 128)%N) message ->
  dict_get (send_headers destination message) (lit "content-length")
  = Some (str_of_nat (utf8_len message)).
Proof.
  intros H. unfold send_headers.
  rewrite dict_get_set_same. now rewrite utf8_len_ascii.
Qed.

Lemma send_content_length_ascii_witness :
  dict_get (send_headers (lit "/topic/x") (lit "price=12.5"))
    (lit "content-length")
  = Some (lit "10").
Proof.
  apply (@send_content_length_ascii (lit "/topic/x") (lit "price=12.5")).
  repeat constructor.
Defined.

End Routing.

(* ================================================================== *)
(** ** Invariants of a client's history *)

Section Histories.

Import Dispatcher.

Ltac not_in := vm_compute; intuition discriminate.

Lemma registry_keys_set {V} (d : dict V) (k x : str) (v : V) :
  In x (keys (dict_set d k v)) -> In x (keys d) \/ x = k.
Proof.
  unfold keys. induction d as [|[k0 v0] d IH]; simpl.
  - intros [E|[]]. now right.
  - destruct (str_eqb k0 k); simpl; [tauto|].
    intros [E|Hin]; [tauto|]. destruct (IH Hin); tauto.
Qed.

Lemma registry_set_NoDup {V} (d : dict V) (k : str) (v : V) :
  NoDup (keys d) -> NoDup (keys (dict_set d k v)).
Proof.
  unfold keys. induction d as [|[k0 v0] d IH]; simpl; intros H.
  - constructor; [intros []|constructor].
  - inversion H as [|? ? Hk0 Hd]; subst.
    destruct (str_eqb k0 k) eqn:E; simpl; [now constructor|].
    constructor; [|now apply IH].
    intros Hin. apply registry_keys_set in Hin as [Hin|Hin];
      [now apply Hk0|].
    subst. now rewrite str_eqb_refl in E.
Qed.

Lemma transmit_well_kept (command : str) (headers : dict str)
  (msg : option str) (st : client) :
  In command client_commands ->
  well_kept st -> well_kept (_transmit command headers msg st).
Proof.
  intros Hc [Hs Hr]. split.
  - rewrite transmit_sent. destruct (link_down st); [exact Hs|].
    apply Forall_app. split; [exact Hs|]. constructor; [|constructor].
    right. now exists command, headers, msg.
  - now rewrite transmit_keeps_registry.
Qed.

Lemma wait_connected_keeps_registry (inbound : list str) :
  forall st : client,
  callback_registry (snd (Stomp.wait_connected inbound st))
  = callback_registry st.
Proof.
  induction inbound as [|message inbound IH]; intros st; simpl;
    destruct (connected st) as [[|]|]; try reflexivity.
  now rewrite IH, on_message_keeps_registry.
Qed.

Lemma step_well_kept (ev : event) (st : client) :
  well_kept st -> well_kept (step ev st).
Proof.
  intros H. destruct ev as [inbound|d cb now uuid8|d m| | |message|e| |error];
    cbn [step]; try exact H.
  - unfold Stomp.connect. split.
    + rewrite wait_connected_keeps_sent, connect_as_transmit.
      apply transmit_well_kept; [not_in|exact H].
    + rewrite wait_connected_keeps_registry, connect_as_transmit.
      apply transmit_well_kept; [not_in|exact H].
  - unfold Stomp.subscribe, subscribe.
    apply transmit_well_kept; [not_in|]. destruct H as [Hs Hr].
    split; [exact Hs|]. now apply registry_set_NoDup.
  - apply transmit_well_kept; [not_in|exact H].
  - unfold Stomp.disconnect. destruct (connected st) as [[|]|]; try exact H.
    apply (@transmit_well_kept (lit "DISCONNECT") [] None st); [not_in|exact H].
  - unfold send_heartbeat. destruct (connected st) as [[|]|]; try exact H.
    unfold heartbeat, ws_send. destruct H as [Hs Hr].
    destruct (link_down st); split; simpl; try assumption.
    apply Forall_app. split; [exact Hs|]. constructor; [now left|constructor].
  - destruct H as [Hs Hr]. split.
    + now rewrite on_message_keeps_sent.
    + now rewrite on_message_keeps_registry.
Qed.

Lemma run_well_kept (history : list event) :
  forall st : client, well_kept st -> well_kept (run history st).
Proof.
  induction history as [|ev history IH]; intros st H; [exact H|].
  simpl. apply IH. now apply step_well_kept.
Qed.

Lemma outbound_ends (text : str) :
  outbound text -> text = BYTE_LF \/ terminated text.
Proof.
  intros [->|(command & headers & msg & _ & ->)]; [now left|right].
  rewrite frame_text_as_lines. unfold terminated.
  eexists. rewrite app_assoc. reflexivity.
Qed.

(** X20: Whatever the application, the heartbeat thread and the transport do
    with a client, every text it hands to the transport is either the
    heartbeat line feed or a CONNECT, SUBSCRIBE, SEND or DISCONNECT frame
    ended by the NULL octet, and the registry holds one entry per
    destination. *)
Theorem history_well_kept (host : str) (sockjs wss : bool)
  (user pass : option str) (history : list event) :
  let st := run history (Stomp.__init__ host sockjs wss user pass) in
  Forall outbound (sent st)
  /\ Forall (fun text => text = BYTE_LF \/ terminated text) (sent st)
  /\ NoDup (keys (callback_registry st)).
Proof.
  intros st.
  assert (H : well_kept st).
  { apply run_well_kept. split; constructor. }
  destruct H as [Hs Hr]. split; [exact Hs|]. split; [|exact Hr].
  eapply Forall_impl; [|exact Hs]. apply outbound_ends.
Qed.

(** An inbound frame is never answered: between two events of the
    application the texts sent are the same, whatever arrives. *)
Lemma inbound_history_silent (inbound : list str) :
  forall st : client,
  sent (run (List.map Inbound inbound) st) = sent st.
Proof.
  induction inbound as [|message inbound IH]; intros st; [reflexivity|].
  simpl. now rewrite IH, on_message_keeps_sent.
Qed.

End Histories.

(* ================================================================== *)
(** ** A lost connection *)

Section LostConnection.

Import Dispatcher.

(** X21: The loss of the connection is not noticed: after the link is lost and
    the transport has reported the close, the flag is still true, and
    [disconnect()] then tries to write its DISCONNECT frame, reports the
    failure without raising, and clears the flag. *)
Theorem close_leaves_flag (e : str) (st : client) :
  connected st = Some true ->
  let st' := _on_close (lose_link e st) in
  connected st' = Some true
  /\ sent (Stomp.disconnect st') = sent st
  /\ connected (Stomp.disconnect st') = Some false
  /\ console (Stomp.disconnect st')
     = console st
       ++ [lit "### closed ###";
           lit ">>>" ++ frame_text (lit "DISCONNECT") [] None;
           lit "Error sending message: " ++ e;
           lit "Connection to remote host was lost."].
Proof.
  intros H st'. split; [exact H|].
  unfold Stomp.disconnect.
  change (connected st') with (connected st). rewrite H.
  unfold Dispatcher.disconnect.
  rewrite (@transmit_closed _ _ _ e st' eq_refl). simpl.
  now rewrite <- !app_assoc.
Qed.

Lemma close_leaves_flag_witness :
  let st := set_connected (Some true) fresh_client in
  let st' := _on_close (lose_link (lit "Connection is already closed.") st) in
  connected st' = Some true
  /\ sent (Stomp.disconnect st') = sent st
  /\ connected (Stomp.disconnect st') = Some false
  /\ console (Stomp.disconnect st')
     = console st
       ++ [lit "### closed ###";
           lit ">>>" ++ frame_text (lit "DISCONNECT") [] None;
           lit "Error sending message: "
           ++ lit "Connection is already closed.";
           lit "Connection to remote host was lost."].
Proof.
  intros st.
  apply (@close_leaves_flag (lit "Connection is already closed.") st).
  reflexivity.
Defined.

(** X22: On a lost link every heartbeat tick fails in the same way: nothing is
    written, two lines are printed, and the flag stays true, so that the
    next tick tries again. *)
Theorem heartbeat_on_lost_link (ticks : nat) (e : str) (st : client) :
  connected st = Some true ->
  link_down st = Some e ->
  let st' := run (repeat Heartbeat ticks) st in
  sent st' = sent st
  /\ connected st' = Some true
  /\ console st'
     = console st
       ++ List.concat
            (repeat [lit "Error sending heartbeat: " ++ e;
                     lit "Connection to remote host was lost."] ticks).
Proof.
  revert st. induction ticks as [|ticks IH]; intros st Hc Hd; simpl.
  - now rewrite app_nil_r.
  - assert (E : send_heartbeat st
                = print (lit "Connection to remote host was lost.")
                    (print (lit "Error sending heartbeat: " ++ e) st)).
    { unfold send_heartbeat, heartbeat, ws_send. now rewrite Hc, Hd. }
    rewrite E.
    destruct (IH (print (lit "Connection to remote host was lost.")
                    (print (lit "Error sending heartbeat: " ++ e) st)))
      as (H1 & H2 & H3); [exact Hc|exact Hd|].
    split; [exact H1|]. split; [exact H2|].
    rewrite H3. simpl. now rewrite <- !app_assoc.
Qed.

Lemma heartbeat_on_lost_link_witness :
  let st :=
    lose_link (lit "socket is already closed.")
      (set_connected (Some true) fresh_client) in
  let st' := run (repeat Heartbeat 3) st in
  sent st' = sent st
  /\ connected st' = Some true
  /\ console st'
     = console st
       ++ List.concat
            (repeat [lit "Error sending heartbeat: "
                     ++ lit "socket is already closed.";
                     lit "Connection to remote host was lost."] 3).
Proof.
  intros st.
  apply (@heartbeat_on_lost_link 3 (lit "socket is already closed.") st);
    reflexivity.
Defined.

End LostConnection.
